(** * The CodeAct agent loop of [langgraph_codeact]

    A shallow embedding of [langgraph_codeact/__init__.py] (the two graph
    nodes [call_model] and [sandbox], and the graph wired by
    [create_codeact]) and of [remote_eval] from [sse_server.py], with the
    properties of the loop stated and proved over it.

    External services are oracles: the k-th call to the language model and
    the k-th call to the evaluator answer as functions of [k] and of the
    arguments of the call.  Python exceptions are values of [exn], carried
    by the [Result] monad. *)

From Stdlib Require Import String Ascii ZArith Lia.
From stdpp Require Import base list strings gmap.

Local Open Scope string_scope.

(** ** Python exceptions and fallible computations *)

Inductive exn : Type :=
| KeyError (key : string)
| TypeError (msg : string)
| ValueError (msg : string)
| HTTPError (status : Z)
| ConnectionError
| ServiceError (msg : string).

Inductive Result (A : Type) : Type :=
| Ok (a : A)
| Raise (e : exn).

Arguments Ok {A} a.
Arguments Raise {A} e.

#[global] Instance Result_ret : MRet Result := fun A a => Ok a.

#[global] Instance Result_bind : MBind Result := fun A B k r =>
  match r with
  | Ok a => k a
  | Raise e => Raise e
  end.

(** ** Strings *)

Definition newline : ascii := "010"%char.
Definition backtick : ascii := "`"%char.

Definition is_backtick (c : ascii) : bool := Ascii.eqb c backtick.

Definition is_space (c : ascii) : bool :=
  Ascii.eqb c " "%char || Ascii.eqb c newline
  || Ascii.eqb c "009"%char || Ascii.eqb c "013"%char.

(** Python truthiness of a [str]: the empty string is falsy. *)
Definition truthy (s : string) : bool :=
  match s with
  | EmptyString => false
  | String _ _ => true
  end.

(** ** [langgraph_codeact.utils] *)

Module Utils.

(** The triple-backtick marker. *)
Definition fence : string :=
  String backtick (String backtick (String backtick EmptyString)).

(** Does [s] begin with the marker? *)
Definition starts_fence (s : string) : bool :=
  match s with
  | String c1 (String c2 (String c3 _)) =>
      is_backtick c1 && is_backtick c2 && is_backtick c3
  | _ => false
  end.

(** Does the marker occur anywhere in [s]? *)
Fixpoint has_fence (s : string) : bool :=
  match s with
  | EmptyString => false
  | String _ r => starts_fence s || has_fence r
  end.

(** Modelled from the spec: the scan of [extract_and_combine_codeblocks]
    ([langgraph_codeact/utils.py] is not among the sources).  The text is
    read left to right; a marker met outside a region opens one, the next
    marker closes it.  With [inside = true] the head of the result is the
    content of the region that is open at the start of [s].  A region whose
    closing marker never comes is skipped. *)
Fixpoint fenced_regions (inside : bool) (s : string) : list string :=
  match s with
  | EmptyString => []
  | String c1 r1 =>
      let plain_char :=
        if inside then
          match fenced_regions true r1 with
          | b :: bs => String c1 b :: bs
          | [] => []
          end
        else fenced_regions false r1 in
      match r1 with
      | String c2 (String c3 r3) =>
          if is_backtick c1 && is_backtick c2 && is_backtick c3 then
            if inside then EmptyString :: fenced_regions false r3
            else fenced_regions true r3
          else plain_char
      | _ => plain_char
      end
  end.

(** The text that follows the first newline of [s], if there is one. *)
Fixpoint after_first_line (s : string) : option string :=
  match s with
  | EmptyString => None
  | String c r => if Ascii.eqb c newline then Some r else after_first_line r
  end.

(** Modelled from the spec: the language tag is what stands on the line of
    the opening marker; a region written on one line carries none. *)
Definition drop_language_tag (region : string) : string :=
  match after_first_line region with
  | Some body => body
  | None => region
  end.

Fixpoint lstrip (s : string) : string :=
  match s with
  | EmptyString => EmptyString
  | String c r => if is_space c then lstrip r else s
  end.

Fixpoint rstrip (s : string) : string :=
  match s with
  | EmptyString => EmptyString
  | String c r =>
      match rstrip r with
      | EmptyString => if is_space c then EmptyString else String c EmptyString
      | r' => String c r'
      end
  end.

Definition strip (s : string) : string := rstrip (lstrip s).

(** Modelled from the spec: the trimmed content of a region. *)
Definition trim_block (region : string) : string :=
  strip (drop_language_tag region).

(** The separator that leaves one blank line between two blocks. *)
Definition blank_line : string := String newline (String newline EmptyString).

(** Modelled from the spec: [extract_and_combine_codeblocks] of
    [langgraph_codeact/utils.py], imported by [__init__.py] and absent
    from the sources.  No region gives the empty string, which is
    [no code]. *)
Definition extract_and_combine_codeblocks (text : string) : string :=
  String.concat blank_line (map trim_block (fenced_regions false text)).


(** A document given by its structure: text, then a fenced block, and so
    on, closed by a last stretch of text. *)
Fixpoint render (doc : list (string * string)) (tail : string) : string :=
  match doc with
  | [] => tail
  | (t, b) :: doc' => t ++ fence ++ b ++ fence ++ render doc' tail
  end.

(** [s] holds no marker and none starts in it when a marker follows. *)
Definition plain (s : string) : bool :=
  negb (has_fence (s ++ String backtick (String backtick EmptyString))).

Definition well_formed (doc : list (string * string)) (tail : string) : Prop :=
  Forall (fun tb => plain tb.1 = true /\ plain tb.2 = true) doc
  /\ has_fence tail = false.

End Utils.

(** ** [langgraph_codeact/__init__.py] *)

Module CodeAct.

Inductive Role : Type := system | user | assistant.

(** A message of the conversation: a dict with the keys [role] and
    [content], or the model's response, whose role is [assistant]. *)
Record Message : Type := { role : Role; content : string }.

(** [CodeActState]: the [messages] of [MessagesState], always present,
    and the two keys the class adds.  A key that no step has written yet
    is absent from the dict ([None]); [script] is [Optional[str]], so a
    present [script] is Python's [None] or a string. *)
Record CodeActState : Type := {
  messages : list Message;
  script : option (option string);
  context : option (gmap string string)
}.

(** What a node hands back: the keys of its update dict. *)
Record Update : Type := {
  upd_messages : list Message;
  upd_script : option (option string);
  upd_context : option (gmap string string)
}.

Inductive Node : Type := node_call_model | node_sandbox.

(** [Command(goto=..., update=...)]; a [Command] built without [goto]
    names no successor. *)
Record Command : Type := { goto : option Node; update : Update }.

(** The callable given as [eval_fn].  [Unary] accepts a call with the
    script alone, as [remote_eval(code, language=...)] does; [Binary] is
    the signature written in [EvalFunction] and in the docstring of
    [create_codeact]: two required arguments, a pair as result.  The first
    argument of the oracle is the number of earlier evaluator calls. *)
Inductive Callable : Type :=
| Unary (f : nat -> option string -> Result string)
| Binary (f : nat -> option string -> gmap string string
              -> Result (string * gmap string string)).

Record EvalFn : Type := { iscoroutinefunction : bool; callable : Callable }.

(** [f(arg)]: a call with one positional argument. *)
Definition call1 (f : Callable) (k : nat) (arg : option string) : Result string :=
  match f with
  | Unary g => g k arg
  | Binary _ => Raise (TypeError "missing 1 required positional argument")
  end.

Definition default_instructions : string :=
  "You will be given a task to perform. You should output either" ++ String newline (
  "- a Python code snippet that provides the solution to the task, or a step towards the solution. Any output you want to extract from the code should be printed to the console. Code should be output in a fenced code block." ++ String newline (
  "- text to be shown directly to the user, if you want to ask for more information or provide the final answer." ++ String newline (
  "- use the same language as the user's input." ++ String newline EmptyString))).

Definition create_default_prompt (base_prompt : option string) : string :=
  let prompt :=
    match base_prompt with
    | Some b =>
        if truthy b then b ++ String newline (String newline EmptyString)
        else EmptyString
    | None => EmptyString
    end in
  prompt ++ default_instructions.

(** [state[key]] on the [script] key. *)
Definition getitem_script (state : CodeActState) : Result (option string) :=
  match script state with
  | Some v => Ok v
  | None => Raise (KeyError "script")
  end.

Inductive Vertex : Type := START | At (n : Node).

Record StateGraph : Type := {
  graph_nodes : list Node;
  graph_edges : list (Vertex * Node)
}.

#[global] Instance Node_eq_dec : EqDecision Node.
Proof. solve_decision. Defined.

#[global] Instance Vertex_eq_dec : EqDecision Vertex.
Proof. solve_decision. Defined.

(** The node an edge of the graph leads to from [v], if any. *)
Definition successor (g : StateGraph) (v : Vertex) : option Node :=
  snd <$> List.find (fun e => bool_decide (e.1 = v)) (graph_edges g).

(** The reducer of the [messages] channel of [MessagesState], on messages
    that are new to the history: what a node returns is appended.  The
    reducer with the ids of the messages, under which a message can take
    the place of an earlier one, is [Ids.add_messages]; a step that
    stores its message under an id new to the history is a step of this
    model. *)
Definition add_messages (left right : list Message) : list Message :=
  left ++ right.

(** The other channels keep the last value written. *)
Definition last_value {A : Type} (old new : option A) : option A :=
  match new with
  | Some v => Some v
  | None => old
  end.

Definition apply_update (state : CodeActState) (u : Update) : CodeActState :=
  {| messages := add_messages (messages state) (upd_messages u);
     script := last_value (script state) (upd_script u);
     context := last_value (context state) (upd_context u) |}.

(** A run in progress: the node about to execute, the state it will
    see, and the numbers of model and evaluator calls made so far. *)
Record Config : Type := {
  at_node : Node;
  state : CodeActState;
  model_calls : nat;
  sandbox_calls : nat
}.

Inductive Outcome : Type :=
| Next (c : Config)
| Done (c : Config)
| Failed (e : exn) (c : Config).

Inductive RunResult : Type :=
| Finished (c : Config)
| Raised (e : exn) (c : Config)
| OutOfFuel (c : Config).

Section Agent.

(** [from langgraph_codeact.utils import extract_and_combine_codeblocks] *)
Variable extract_and_combine_codeblocks : string -> string.
(** [model.invoke]: the reply to the k-th call, given its messages. *)
Variable model : nat -> list Message -> Result string.
Variable eval_fn : EvalFn.
Variable prompt_arg : option string.

Definition prompt : string :=
  match prompt_arg with
  | None => create_default_prompt prompt_arg
  | Some p => p
  end.

(** The message sequence sent to the model. *)
Definition model_input (state : CodeActState) : list Message :=
  [{| role := system; content := prompt |}] ++ messages state.

Definition call_model (k : nat) (state : CodeActState) : Result Command :=
  let messages := model_input state in
  text ← model k messages;
  let response := {| role := assistant; content := text |} in
  let code := extract_and_combine_codeblocks (content response) in
  if truthy code then
    Ok {| goto := Some node_sandbox;
          update := {| upd_messages := [response];
                       upd_script := Some (Some code);
                       upd_context := None |} |}
  else
    Ok {| goto := None;
          update := {| upd_messages := [response];
                       upd_script := Some None;
                       upd_context := None |} |}.

Definition sandbox_async (k : nat) (state : CodeActState) : Result Update :=
  s ← getitem_script state;
  output ← call1 (callable eval_fn) k s;
  Ok {| upd_messages := [{| role := user; content := output |}];
        upd_script := None;
        upd_context := None |}.

Definition sandbox_sync (k : nat) (state : CodeActState) : Result Update :=
  s ← getitem_script state;
  output ← call1 (callable eval_fn) k s;
  Ok {| upd_messages := [{| role := user; content := output |}];
        upd_script := None;
        upd_context := None |}.

Definition sandbox : nat -> CodeActState -> Result Update :=
  if iscoroutinefunction eval_fn then sandbox_async else sandbox_sync.

Definition create_codeact : StateGraph :=
  {| graph_nodes := [node_call_model; node_sandbox];
     graph_edges := [(START, node_call_model);
                     (At node_sandbox, node_call_model)] |}.

(** Where the run goes after node [n]: to the target of the node's
    [Command] when it names one, else along the edge out of [n]; with
    neither the run is over. *)
Definition next_node (n : Node) (goto : option Node) : option Node :=
  match goto with
  | Some target => Some target
  | None => successor create_codeact (At n)
  end.

Definition advance (c : Config) (n : Node) (goto : option Node) (u : Update)
    (mc sc : nat) : Outcome :=
  let state' := apply_update (state c) u in
  match next_node n goto with
  | Some n' =>
      Next {| at_node := n'; state := state';
              model_calls := mc; sandbox_calls := sc |}
  | None =>
      Done {| at_node := n; state := state';
              model_calls := mc; sandbox_calls := sc |}
  end.

(** One node execution.  The update a node returns is applied to the
    state before the next node runs.  A node that raises returns no
    update: the state of the failed configuration is the one the node
    was given. *)
Definition step (c : Config) : Outcome :=
  match at_node c with
  | node_call_model =>
      match call_model (model_calls c) (state c) with
      | Ok cmd =>
          advance c node_call_model (goto cmd) (update cmd)
            (S (model_calls c)) (sandbox_calls c)
      | Raise e =>
          Failed e {| at_node := node_call_model; state := state c;
                      model_calls := S (model_calls c);
                      sandbox_calls := sandbox_calls c |}
      end
  | node_sandbox =>
      match sandbox (sandbox_calls c) (state c) with
      | Ok u =>
          advance c node_sandbox None u
            (model_calls c) (S (sandbox_calls c))
      | Raise e =>
          Failed e {| at_node := node_sandbox; state := state c;
                      model_calls := model_calls c;
                      sandbox_calls := S (sandbox_calls c) |}
      end
  end.

(** The driver.  [fuel] is the number of node executions the runtime
    allows before it gives up. *)
Fixpoint run (fuel : nat) (c : Config) : RunResult :=
  match fuel with
  | O => OutOfFuel c
  | S fuel' =>
      match step c with
      | Next c' => run fuel' c'
      | Done c' => Finished c'
      | Failed e c' => Raised e c'
      end
  end.

(** The configuration a run starts in, on the caller's input. *)
Definition start (input : CodeActState) : option Config :=
  n ← successor create_codeact START;
  Some {| at_node := n; state := input;
          model_calls := 0; sandbox_calls := 0 |}.

Definition invoke (fuel : nat) (input : CodeActState) : option RunResult :=
  run fuel <$> start input.

(** One completed node execution leads from [c] to [c']. *)
Definition steps_to (c c' : Config) : Prop :=
  step c = Next c' \/ step c = Done c'.

(** The configurations met by a run that entered at [init]. *)
Inductive reachable (init : Config) : Config -> Prop :=
| reachable_init : reachable init init
| reachable_step c c' :
    reachable init c -> step c = Next c' -> reachable init c'.

End Agent.

(** The update of a model turn that produced [code]. *)
Definition continue_with (text code : string) : Command :=
  {| goto := Some node_sandbox;
     update := {| upd_messages := [{| role := assistant; content := text |}];
                  upd_script := Some (Some code);
                  upd_context := None |} |}.

(** The update of a model turn that produced no code. *)
Definition stop_with (text : string) : Command :=
  {| goto := None;
     update := {| upd_messages := [{| role := assistant; content := text |}];
                  upd_script := Some None;
                  upd_context := None |} |}.

(** The state after a model turn, and after an evaluation. *)
Definition after_model (st : CodeActState) (text : string) (s : option string)
    : CodeActState :=
  {| messages := messages st ++ [{| role := assistant; content := text |}];
     script := Some s;
     context := context st |}.

Definition after_sandbox (st : CodeActState) (output : string) : CodeActState :=
  {| messages := messages st ++ [{| role := user; content := output |}];
     script := script st;
     context := context st |}.

(** The input of the conversation entry point: one user message. *)
Definition user_input (text : string) : CodeActState :=
  {| messages := [{| role := user; content := text |}];
     script := None;
     context := None |}.

(** The content of the message appended last. *)
Definition final_content (c : Config) : option string :=
  content <$> last (messages (state c)).

End CodeAct.

(** ** [sse_server.py] *)

Module SseServer.

(** The two variables [remote_eval] reads from [os.environ]. *)
Record Environ : Type := {
  SANDBOX_URL : option string;
  AUTH_KEY : option string
}.

(** The reply of the sandbox service: its HTTP status, and what
    [response.json()["run_result"]["stdout"]] evaluates to. *)
Record Response : Type := {
  status_code : Z;
  run_result_stdout : Result string
}.

Record Request : Type := {
  url : string;
  body_code : option string;
  body_language : string;
  authorization : string
}.

(** [requests.post]: a reply, or no connection. *)
Inductive Posted : Type :=
| Replied (r : Response)
| Unreachable.

(** [response.raise_for_status()]: statuses 400 to 599 raise. *)
Definition raise_for_status (r : Response) : Result unit :=
  if ((400 <=? status_code r) && (status_code r <? 600))%Z
  then Raise (HTTPError (status_code r))
  else Ok tt.

Definition environ_get (key : string) (v : option string) : Result string :=
  match v with
  | Some s => Ok s
  | None => Raise (KeyError key)
  end.

Section Service.

Variable environ : Environ.
(** The sandbox service: the reply to the k-th request. *)
Variable post : nat -> Request -> Posted.

Definition remote_eval (k : nat) (code : option string) (language : string)
    : Result string :=
  if String.eqb language "python" then
    base ← environ_get "SANDBOX_URL" (SANDBOX_URL environ);
    let url := base ++ "/run_code" in
    key ← environ_get "AUTH_KEY" (AUTH_KEY environ);
    match post k {| url := url; body_code := code;
                    body_language := language;
                    authorization := "Bearer " ++ key |} with
    | Unreachable => Raise ConnectionError
    | Replied response =>
        _ ← raise_for_status response;
        run_result_stdout response
    end
  else
    Raise (ValueError ("Unsupported language: " ++ language)).

(** [create_codeact(llm, remote_eval)]: the loop calls [remote_eval]
    with the script alone, so [language] takes its default. *)
Definition eval_fn : CodeAct.EvalFn :=
  {| CodeAct.iscoroutinefunction := false;
     CodeAct.callable :=
       CodeAct.Unary (fun k code => remote_eval k code "python") |}.

End Service.

End SseServer.

(** ** A run of the server: one script, then the answer *)

Module Scenario.

Import CodeAct.

Definition nl : string := String newline EmptyString.

Definition two_blocks : list (string * string) :=
  [("First:" ++ String newline EmptyString,
    "python" ++ String newline ("x = 1" ++ String newline EmptyString));
   (" then ", "print(x)")].

Definition question : string := "print 2+2".

Definition reply_code : string := "```" ++ nl ++ "print(2+2)" ++ nl ++ "```".

Definition reply_final : string := "The answer is 4.".

Definition responses (k : nat) : string :=
  if Nat.eqb k 0 then reply_code else reply_final.

(** A model that answers with a script first and with text afterwards. *)
Definition model (k : nat) (_ : list Message) : Result string :=
  Ok (responses k).

(** A response whose only fenced block is empty. *)
Definition reply_empty_block : string := "```" ++ nl ++ "```".


Definition environ : SseServer.Environ :=
  {| SseServer.SANDBOX_URL := Some "http://sandbox";
     SseServer.AUTH_KEY := Some "secret" |}.

(** A sandbox service that runs the script and prints 4. *)
Definition post_ok (_ : nat) (_ : SseServer.Request) : SseServer.Posted :=
  SseServer.Replied {| SseServer.status_code := 200;
                       SseServer.run_result_stdout := Ok ("4" ++ nl) |}.

(** A sandbox service that rejects the key. *)
Definition post_unauthorized (_ : nat) (_ : SseServer.Request) : SseServer.Posted :=
  SseServer.Replied {| SseServer.status_code := 401;
                       SseServer.run_result_stdout := Raise (KeyError "run_result") |}.

Definition post_unreachable (_ : nat) (_ : SseServer.Request) : SseServer.Posted :=
  SseServer.Unreachable.

Definition eval_ok : EvalFn := SseServer.eval_fn environ post_ok.
Definition eval_unauthorized : EvalFn := SseServer.eval_fn environ post_unauthorized.
Definition eval_unreachable : EvalFn := SseServer.eval_fn environ post_unreachable.

(** An evaluator with the signature of [EvalFunction]: it takes the
    script and the context and returns the output with a new context. *)
Definition eval_documented : EvalFn :=
  {| iscoroutinefunction := false;
     callable := Binary (fun _ _ ctx => Ok ("4" ++ nl, <["y" := "4"]> ctx)) |}.

(** A state whose context holds a binding. *)
Definition with_binding : CodeActState :=
  {| messages := messages (after_model (user_input question) reply_code None);
     script := Some (Some "print(2+2)");
     context := Some {[ "x" := "1" ]} |}.

(** The configuration in which the model node runs first. *)
Definition c0 : Config :=
  {| at_node := node_call_model; state := user_input question;
     model_calls := 0; sandbox_calls := 0 |}.

(** The configuration in which the sandbox node runs, one turn later. *)
Definition c1 : Config :=
  {| at_node := node_sandbox;
     state := after_model (user_input question) reply_code (Some "print(2+2)");
     model_calls := 1; sandbox_calls := 0 |}.

End Scenario.

(** ** The end of a run *)

(** The configuration a run stopped in, however it stopped. *)
Definition result_config (r : CodeAct.RunResult) : CodeAct.Config :=
  match r with
  | CodeAct.Finished c => c
  | CodeAct.Raised _ c => c
  | CodeAct.OutOfFuel c => c
  end.

Definition not_system (m : CodeAct.Message) : Prop :=
  CodeAct.role m <> CodeAct.system.

(** ** [json.dumps], as [stream_response] uses it *)

Module Json.

Definition dquote : ascii := "034"%char.
Definition backslash : ascii := "\"%char.
Definition carriage_return : ascii := "013"%char.

(** One digit of the lower-case hexadecimal notation. *)
Definition hex_digit (n : N) : ascii :=
  if (n <? 10)%N then ascii_of_N (48 + n) else ascii_of_N (87 + n).

(** The escape of a character that has no short form: a backslash, [u]
    and four hexadecimal digits.  A character of [string] stands for a
    code point below 256, so the first two digits are zero. *)
Definition unicode_escape (c : ascii) : string :=
  let n := N_of_ascii c in
  String backslash
    ("u00" ++ String (hex_digit (n / 16)) (String (hex_digit (n mod 16)) EmptyString)).

(** What the encoder, left on its default of ASCII-only output, writes
    for one character: the quote and the backslash behind a backslash,
    the short forms of five control characters, the printable characters
    from the space to the tilde as they are, every other one escaped. *)
Definition escape_char (c : ascii) : string :=
  if Ascii.eqb c dquote then String backslash (String dquote EmptyString)
  else if Ascii.eqb c backslash then String backslash (String backslash EmptyString)
  else if Ascii.eqb c newline then String backslash "n"
  else if Ascii.eqb c carriage_return then String backslash "r"
  else if Ascii.eqb c "009"%char then String backslash "t"
  else if Ascii.eqb c "008"%char then String backslash "b"
  else if Ascii.eqb c "012"%char then String backslash "f"
  else if ((32 <=? N_of_ascii c) && (N_of_ascii c <=? 126))%N
       then String c EmptyString
  else unicode_escape c.

Fixpoint escape (s : string) : string :=
  match s with
  | EmptyString => EmptyString
  | String c r => escape_char c ++ escape r
  end.

(** A string as a JSON string. *)
Definition encode_string (s : string) : string :=
  String dquote (escape s ++ String dquote EmptyString).

(** [json.dumps({"type": "event", "content": content})]: the keys in
    the order of the dict, the default separators. *)
Definition dumps_event (content : string) : string :=
  "{" ++ encode_string "type" ++ ": " ++ encode_string "event" ++ ", "
  ++ encode_string "content" ++ ": " ++ encode_string content ++ "}".

(** The value of a hexadecimal digit as [hex_digit] writes it. *)
Definition hex_value (c : ascii) : option N :=
  let n := N_of_ascii c in
  if ((48 <=? n) && (n <=? 57))%N then Some (n - 48)%N
  else if ((97 <=? n) && (n <=? 102))%N then Some (n - 87)%N
  else None.


End Json.

(** ** [sse_server.py]: the response stream *)

Module SseStream.

(** What [agent.astream] yields under the two stream modes asked for: the
    state after a step, or a piece of a message with its metadata, of
    which [stream_response] reads [chunk[0].content]. *)
Inductive StreamItem : Type :=
| ValuesItem (state : CodeAct.CodeActState)
| MessagesItem (content : string).

Definition typ (item : StreamItem) : string :=
  match item with
  | ValuesItem _ => "values"
  | MessagesItem _ => "messages"
  end.

(** The stream of the agent: it ends, or raises what the run raised. *)
Inductive Stream : Type :=
| StreamEnd
| StreamRaise (e : exn)
| StreamYield (item : StreamItem) (rest : Stream).

Fixpoint stream_of (items : list StreamItem) (ending : Stream) : Stream :=
  match items with
  | [] => ending
  | item :: items' => StreamYield item (stream_of items' ending)
  end.

(** The contents of the message pieces among the items, in order. *)
Fixpoint message_contents (items : list StreamItem) : list string :=
  match items with
  | [] => []
  | MessagesItem content :: items' => content :: message_contents items'
  | ValuesItem _ :: items' => message_contents items'
  end.

Definition frame_end : string := String newline (String newline EmptyString).

(** The last frame of a response. *)
Definition completed_frame : string :=
  "data: {" ++ Json.encode_string "status" ++ ": "
  ++ Json.encode_string "completed" ++ "}" ++ frame_end.

Section Response.

(** [json.dumps(data)] for the event that carries [content]. *)
Variable dumps : string -> string.

Definition event_frame (content : string) : string :=
  "data: " ++ dumps content ++ frame_end.

(** The frames the generator yields, and the exception it ends with if
    the stream of the agent raises. *)
Fixpoint stream_response (s : Stream) : list string * option exn :=
  match s with
  | StreamEnd => ([completed_frame], None)
  | StreamRaise e => ([], Some e)
  | StreamYield item rest =>
      let (frames, ending) := stream_response rest in
      match item with
      | MessagesItem content => (event_frame content :: frames, ending)
      | ValuesItem _ => (frames, ending)
      end
  end.

End Response.

End SseStream.

(** ** More runs *)

Module Cases.

Import CodeAct.

(** A model that cannot be reached. *)
Definition model_down (_ : nat) (_ : list Message) : Result string :=
  Raise (ServiceError "model unavailable").

(** A model that answers with a script every time. *)
Definition model_loop (_ : nat) (_ : list Message) : Result string :=
  Ok Scenario.reply_code.

Definition request : SseServer.Request :=
  {| SseServer.url := "http://sandbox/run_code";
     SseServer.body_code := Some "print(2+2)";
     SseServer.body_language := "python";
     SseServer.authorization := "Bearer secret" |}.


(** A service that fails after the script has printed something. *)
Definition post_server_error (_ : nat) (_ : SseServer.Request) : SseServer.Posted :=
  SseServer.Replied
    {| SseServer.status_code := 500;
       SseServer.run_result_stdout := Ok "partial output" |}.

Definition no_url : SseServer.Environ :=
  {| SseServer.SANDBOX_URL := None; SseServer.AUTH_KEY := None |}.

(** The stream of the run of the scenario, as the two stream modes show it. *)
Definition items : list SseStream.StreamItem :=
  [SseStream.ValuesItem (user_input Scenario.question);
   SseStream.MessagesItem Scenario.reply_code;
   SseStream.ValuesItem (state Scenario.c1);
   SseStream.MessagesItem ("4" ++ Scenario.nl);
   SseStream.MessagesItem Scenario.reply_final].

End Cases.

(** ** What trimming a block means *)

Module Trimming.

Fixpoint has_newline (s : string) : bool :=
  match s with
  | EmptyString => false
  | String c r => Ascii.eqb c newline || has_newline r
  end.

Fixpoint all_space (s : string) : bool :=
  match s with
  | EmptyString => true
  | String c r => is_space c && all_space r
  end.

Definition starts_with_space (s : string) : bool :=
  match s with
  | EmptyString => false
  | String c _ => is_space c
  end.

Fixpoint ends_with_space (s : string) : bool :=
  match s with
  | EmptyString => false
  | String c r =>
      match r with
      | EmptyString => is_space c
      | String _ _ => ends_with_space r
      end
  end.

(** [body] is [region] without the line of the opening marker: what
    follows the first line break, or all of [region] when it is written
    on one line. *)
Inductive tag_dropped : string -> string -> Prop :=
| tag_line (tag body : string) :
    has_newline tag = false ->
    tag_dropped (tag ++ String newline body) body
| one_line (region : string) :
    has_newline region = false ->
    tag_dropped region region.

(** [content] is the trimmed content of [region]: the region without
    the line of the opening marker and without the white space around
    what is left. *)
Definition trimmed_content (region content : string) : Prop :=
  exists body lead trail,
    tag_dropped region body
    /\ all_space lead = true
    /\ all_space trail = true
    /\ body = lead ++ content ++ trail
    /\ starts_with_space content = false
    /\ ends_with_space content = false.

End Trimming.

(** ** Cases for the revised properties *)

Module MoreCases.

(** Two blocks, the first with a language tag, both with white space
    around their code. *)
Definition padded_blocks : list (string * string) :=
  [("Setup:" ++ Scenario.nl,
    "python" ++ Scenario.nl ++ Scenario.nl ++ "  x = 1  " ++ Scenario.nl);
   (Scenario.nl ++ "then" ++ Scenario.nl,
    Scenario.nl ++ "print(x)" ++ Scenario.nl ++ Scenario.nl)].

Definition padded_text : string :=
  "Setup:" ++ Scenario.nl
  ++ "```python" ++ Scenario.nl ++ Scenario.nl ++ "  x = 1  " ++ Scenario.nl
  ++ "```" ++ Scenario.nl ++ "then" ++ Scenario.nl
  ++ "```" ++ Scenario.nl ++ "print(x)" ++ Scenario.nl ++ Scenario.nl
  ++ "```Done.".

End MoreCases.

(** ** The history with the ids of its messages *)

Module Ids.

(** A message as the state holds it.  The reducer gives an id to every
    message that comes without one, so a stored message has an id. *)
Record Stored : Type := { msg_id : string; stored : CodeAct.Message }.

(** A message as a node returns it, with the id it carries, if any: the
    response of the model carries the id the model gave it, the dict the
    sandbox node builds carries none. *)
Record Returned : Type := { given_id : option string; returned : CodeAct.Message }.

(** [m.id = str(uuid.uuid4())] for a message without id. *)
Definition assign_id (uuid : string) (m : Returned) : Stored :=
  {| msg_id := default uuid (given_id m); stored := returned m |}.

(** The position the reducer records for an id, in
    [{m.id: i for i, m in enumerate(left)}]: the last one that holds it. *)
Fixpoint index_by_id (i : string) (left : list Stored) : option nat :=
  match left with
  | [] => None
  | m :: rest =>
      match index_by_id i rest with
      | Some k => Some (S k)
      | None => if String.eqb (msg_id m) i then Some 0 else None
      end
  end.

(** One message of the right-hand list: it takes the place of the
    message of the left-hand list that has its id, or is appended. *)
Definition merge_one (left merged : list Stored) (m : Stored) : list Stored :=
  match index_by_id (msg_id m) left with
  | Some existing_idx => <[existing_idx := m]> merged
  | None => merged ++ [m]
  end.

(** [add_messages], the reducer of the [messages] channel of
    [MessagesState], on messages that have their ids.  No node of this
    graph returns a removal, which is left out. *)
Definition add_messages (left right : list Stored) : list Stored :=
  fold_left (merge_one left) right left.

(** A run in progress, as [CodeAct.Config] with the ids in the history. *)
Record Config : Type := {
  at_node : CodeAct.Node;
  history : list Stored;
  script : option (option string);
  context : option (gmap string string);
  model_calls : nat;
  sandbox_calls : nat
}.

(** The state a node is given: the messages without their ids, which no
    node reads. *)
Definition view (c : Config) : CodeAct.CodeActState :=
  {| CodeAct.messages := map stored (history c);
     CodeAct.script := script c;
     CodeAct.context := context c |}.

Definition project (c : Config) : CodeAct.Config :=
  {| CodeAct.at_node := at_node c;
     CodeAct.state := view c;
     CodeAct.model_calls := model_calls c;
     CodeAct.sandbox_calls := sandbox_calls c |}.

Definition executions (c : Config) : nat := model_calls c + sandbox_calls c.

Inductive Outcome : Type :=
| Next (c : Config)
| Done (c : Config)
| Failed (e : exn) (c : Config).

Section Agent.

Variable extract_and_combine_codeblocks : string -> string.
Variable model : nat -> list CodeAct.Message -> Result string.
(** The id of the response to the k-th model call, if the model gives one. *)
Variable response_id : nat -> list CodeAct.Message -> option string.
(** The uuid drawn at the n-th node execution for the j-th message. *)
Variable uuid4 : nat -> nat -> string.
Variable eval_fn : CodeAct.EvalFn.
Variable prompt_arg : option string.

(** The update of a node written to the state, the messages through
    the reducer. *)
Definition write (c : Config) (given : option string) (u : CodeAct.Update)
    (n : CodeAct.Node) (mc sc : nat) : Config :=
  {| at_node := n;
     history :=
       add_messages (history c)
         (imap (fun j m =>
                  assign_id (uuid4 (executions c) j)
                    {| given_id := given; returned := m |})
               (CodeAct.upd_messages u));
     script := CodeAct.last_value (script c) (CodeAct.upd_script u);
     context := CodeAct.last_value (context c) (CodeAct.upd_context u);
     model_calls := mc;
     sandbox_calls := sc |}.

Definition advance (c : Config) (n : CodeAct.Node) (goto : option CodeAct.Node)
    (given : option string) (u : CodeAct.Update) (mc sc : nat) : Outcome :=
  match CodeAct.next_node n goto with
  | Some n' => Next (write c given u n' mc sc)
  | None => Done (write c given u n mc sc)
  end.

(** One node execution: the nodes of [CodeAct] on the view of the
    state, their update written through the reducer. *)
Definition step (c : Config) : Outcome :=
  match at_node c with
  | CodeAct.node_call_model =>
      match CodeAct.call_model extract_and_combine_codeblocks model prompt_arg
              (model_calls c) (view c) with
      | Ok cmd =>
          advance c CodeAct.node_call_model (CodeAct.goto cmd)
            (response_id (model_calls c)
               (CodeAct.model_input prompt_arg (view c)))
            (CodeAct.update cmd) (S (model_calls c)) (sandbox_calls c)
      | Raise e =>
          Failed e {| at_node := CodeAct.node_call_model;
                      history := history c;
                      script := script c;
                      context := context c;
                      model_calls := S (model_calls c);
                      sandbox_calls := sandbox_calls c |}
      end
  | CodeAct.node_sandbox =>
      match CodeAct.sandbox eval_fn (sandbox_calls c) (view c) with
      | Ok u =>
          advance c CodeAct.node_sandbox None None u
            (model_calls c) (S (sandbox_calls c))
      | Raise e =>
          Failed e {| at_node := CodeAct.node_sandbox;
                      history := history c;
                      script := script c;
                      context := context c;
                      model_calls := model_calls c;
                      sandbox_calls := S (sandbox_calls c) |}
      end
  end.

(** The id under which the next step stores its message. *)
Definition incoming_id (c : Config) : string :=
  match at_node c with
  | CodeAct.node_call_model =>
      default (uuid4 (executions c) 0)
        (response_id (model_calls c) (CodeAct.model_input prompt_arg (view c)))
  | CodeAct.node_sandbox => uuid4 (executions c) 0
  end.

(** The reducer finds no message with that id. *)
Definition fresh (c : Config) : bool :=
  match index_by_id (incoming_id c) (history c) with
  | None => true
  | Some _ => false
  end.

Definition steps_to (c c' : Config) : Prop :=
  step c = Next c' \/ step c = Done c'.

(** The configurations met by a run from [init] whose steps all store
    their message under an id new to the history. *)
Inductive fresh_run (init : Config) : Config -> Prop :=
| fresh_run_init : fresh_run init init
| fresh_run_step c c' :
    fresh_run init c -> fresh c = true -> step c = Next c' ->
    fresh_run init c'.

End Agent.

End Ids.

(** ** Cases with ids *)

Module IdCases.

Fixpoint marks (n : nat) : string :=
  match n with
  | O => EmptyString
  | S n' => String "i" (marks n')
  end.

(** Ids that no earlier message has: the number of the call, in marks. *)
Definition response_new_id (k : nat) (_ : list CodeAct.Message) : option string :=
  Some ("run-" ++ marks k).

(** A model that answers under the id of the user's message. *)
Definition response_same_id (_ : nat) (_ : list CodeAct.Message) : option string :=
  Some "m1".

Definition uuid4 (n j : nat) : string := "uuid-" ++ marks n ++ "-" ++ marks j.

Definition model_answer (_ : nat) (_ : list CodeAct.Message) : Result string :=
  Ok Scenario.reply_final.

(** The user's message is in the history, under the id [m1]. *)
Definition asked : Ids.Config :=
  {| Ids.at_node := CodeAct.node_call_model;
     Ids.history :=
       [{| Ids.msg_id := "m1";
           Ids.stored := {| CodeAct.role := CodeAct.user;
                            CodeAct.content := Scenario.question |} |}];
     Ids.script := None;
     Ids.context := None;
     Ids.model_calls := 0;
     Ids.sandbox_calls := 0 |}.

(** One turn later, the response stored under its own id. *)
Definition answered_with_code : Ids.Config :=
  {| Ids.at_node := CodeAct.node_sandbox;
     Ids.history :=
       [{| Ids.msg_id := "m1";
           Ids.stored := {| CodeAct.role := CodeAct.user;
                            CodeAct.content := Scenario.question |} |};
        {| Ids.msg_id := "run-";
           Ids.stored := {| CodeAct.role := CodeAct.assistant;
                            CodeAct.content := Scenario.reply_code |} |}];
     Ids.script := Some (Some "print(2+2)");
     Ids.context := None;
     Ids.model_calls := 1;
     Ids.sandbox_calls := 0 |}.

(** The response stored under the id of the user's message. *)
Definition overwritten : Ids.Config :=
  {| Ids.at_node := CodeAct.node_call_model;
     Ids.history :=
       [{| Ids.msg_id := "m1";
           Ids.stored := {| CodeAct.role := CodeAct.assistant;
                            CodeAct.content := Scenario.reply_final |} |}];
     Ids.script := Some None;
     Ids.context := None;
     Ids.model_calls := 1;
     Ids.sandbox_calls := 0 |}.

End IdCases.

(** ** [json.dumps] on the code points of a Python string *)

Module PyJson.

(** A content is the list of its code points.  A code point is a scalar
    value when it is no surrogate. *)
Definition is_scalar (n : N) : bool :=
  ((n <? 0x110000) && negb ((0xD800 <=? n) && (n <=? 0xDFFF)))%N.

(** ['{0:04x}'.format(n)], for [n] below [0x10000]. *)
Definition hex4 (n : N) : string :=
  String (Json.hex_digit (n / 4096))
    (String (Json.hex_digit (n / 256 mod 16))
       (String (Json.hex_digit (n / 16 mod 16))
          (String (Json.hex_digit (n mod 16)) EmptyString))).

Definition u_escape (n : N) : string :=
  String Json.backslash (String "u" (hex4 n)).

(** What the encoder writes for one code point: as [Json.escape_char]
    below 256; four hexadecimal digits up to [0xffff]; beyond, the two
    surrogates of the code point, each with its four digits. *)
Definition escape_code_point (n : N) : string :=
  if (n =? 34)%N then String Json.backslash (String Json.dquote EmptyString)
  else if (n =? 92)%N then String Json.backslash (String Json.backslash EmptyString)
  else if (n =? 10)%N then String Json.backslash "n"
  else if (n =? 13)%N then String Json.backslash "r"
  else if (n =? 9)%N then String Json.backslash "t"
  else if (n =? 8)%N then String Json.backslash "b"
  else if (n =? 12)%N then String Json.backslash "f"
  else if ((32 <=? n) && (n <=? 126))%N then String (ascii_of_N n) EmptyString
  else if (n <? 0x10000)%N then u_escape n
  else
    let v := (n - 0x10000)%N in
    u_escape (N.lor 0xd800 (N.land (N.shiftr v 10) 0x3ff))
    ++ u_escape (N.lor 0xdc00 (N.land v 0x3ff)).

Fixpoint escape (s : list N) : string :=
  match s with
  | [] => EmptyString
  | n :: r => escape_code_point n ++ escape r
  end.

Definition encode_string (s : list N) : string :=
  String Json.dquote (escape s ++ String Json.dquote EmptyString).

(** [json.dumps({"type": "event", "content": content})]. *)
Definition dumps_event (content : list N) : string :=
  "{" ++ Json.encode_string "type" ++ ": " ++ Json.encode_string "event" ++ ", "
  ++ Json.encode_string "content" ++ ": " ++ encode_string content ++ "}".

(** The frame [stream_response] yields for a message piece. *)
Definition event_frame (content : list N) : string :=
  "data: " ++ dumps_event content ++ SseStream.frame_end.

(** The code points of a string whose characters stand for code points
    below 256. *)
Fixpoint of_string (s : string) : list N :=
  match s with
  | EmptyString => []
  | String c r => N_of_ascii c :: of_string r
  end.

Definition hex4_value (a b c d : ascii) : option N :=
  match Json.hex_value a, Json.hex_value b, Json.hex_value c, Json.hex_value d with
  | Some x, Some y, Some z, Some w => Some (((x * 16 + y) * 16 + z) * 16 + w)%N
  | _, _, _, _ => None
  end.

Definition is_high (v : N) : bool := ((0xD800 <=? v) && (v <=? 0xDBFF))%N.

(** The code point of a pair of surrogates. *)
Definition combine (high low : N) : N :=
  (0x10000 + (high - 0xD800) * 1024 + (low - 0xDC00))%N.

(** Reading back the body of a JSON string as [escape] wrote it, up to
    the quote that closes it; anything else ends the reading. *)
Fixpoint unescape (s : string) : list N :=
  match s with
  | EmptyString => []
  | String c r =>
      if Ascii.eqb c Json.dquote then []
      else if Ascii.eqb c Json.backslash then
        match r with
        | EmptyString => []
        | String d r1 =>
            if Ascii.eqb d Json.dquote then 34%N :: unescape r1
            else if Ascii.eqb d Json.backslash then 92%N :: unescape r1
            else if Ascii.eqb d "n"%char then 10%N :: unescape r1
            else if Ascii.eqb d "r"%char then 13%N :: unescape r1
            else if Ascii.eqb d "t"%char then 9%N :: unescape r1
            else if Ascii.eqb d "b"%char then 8%N :: unescape r1
            else if Ascii.eqb d "f"%char then 12%N :: unescape r1
            else
              match r1 with
              | String h3 (String h2 (String h1 (String h0 r2))) =>
                  match hex4_value h3 h2 h1 h0 with
                  | Some v =>
                      if is_high v then
                        match r2 with
                        | String _ (String _ (String l3 (String l2
                            (String l1 (String l0 r3))))) =>
                            match hex4_value l3 l2 l1 l0 with
                            | Some w => combine v w :: unescape r3
                            | None => []
                            end
                        | _ => []
                        end
                      else v :: unescape r2
                  | None => []
                  end
              | _ => []
              end
        end
      else N_of_ascii c :: unescape r
  end.

End PyJson.

(** * Properties *)

(** ** Strings *)

Lemma append_cons (c : ascii) (s t : string) :
  String c s ++ t = String c (s ++ t).
Proof. reflexivity. Qed.

Lemma append_empty_l (t : string) : EmptyString ++ t = t.
Proof. reflexivity. Qed.

Lemma truthy_true (s : string) : truthy s = true <-> s <> EmptyString.
Proof. destruct s; simpl; split; congruence. Qed.

Lemma truthy_false (s : string) : truthy s = false <-> s = EmptyString.
Proof. destruct s; simpl; split; congruence. Qed.

Ltac push_append := rewrite ?append_cons, ?append_empty_l.

(** ** The code extractor *)

Section Extractor.

Import Utils.

Lemma fenced_regions_char (inside : bool) (c : ascii) (r : string) :
  starts_fence (String c r) = false ->
  fenced_regions inside (String c r) =
    if inside then
      match fenced_regions true r with
      | b :: bs => String c b :: bs
      | [] => []
      end
    else fenced_regions false r.
Proof.
  destruct r as [|c2 [|c3 r3]]; simpl; try reflexivity.
  intros ->. reflexivity.
Qed.

Lemma fenced_regions_fence (inside : bool) (rest : string) :
  fenced_regions inside (fence ++ rest) =
    if inside then EmptyString :: fenced_regions false rest
    else fenced_regions true rest.
Proof. destruct inside; reflexivity. Qed.

Lemma starts_fence_before_fence (c : ascii) (x rest : string) :
  starts_fence (String c (x ++ String backtick (String backtick EmptyString))) = false ->
  starts_fence (String c (x ++ fence ++ rest)) = false.
Proof.
  unfold fence. destruct x as [|d [|e x]]; push_append; simpl; auto.
Qed.

Lemma plain_cons (c : ascii) (x : string) :
  plain (String c x) = true ->
  starts_fence (String c (x ++ String backtick (String backtick EmptyString))) = false
  /\ plain x = true.
Proof.
  unfold plain. push_append. cbn [has_fence].
  rewrite negb_orb, andb_true_iff, !negb_true_iff. tauto.
Qed.

(** Inside a region, a plain stretch followed by a marker is the region. *)
Lemma fenced_regions_close (x rest : string) :
  plain x = true ->
  fenced_regions true (x ++ fence ++ rest) = x :: fenced_regions false rest.
Proof.
  induction x as [|c x IH]; intros Hp.
  - push_append. apply fenced_regions_fence.
  - apply plain_cons in Hp as [Hs Hx]. push_append.
    rewrite fenced_regions_char by (apply starts_fence_before_fence; exact Hs).
    rewrite IH by exact Hx. reflexivity.
Qed.

(** Outside, a plain stretch followed by a marker opens a region. *)
Lemma fenced_regions_open (x rest : string) :
  plain x = true ->
  fenced_regions false (x ++ fence ++ rest) = fenced_regions true rest.
Proof.
  induction x as [|c x IH]; intros Hp.
  - push_append. apply fenced_regions_fence.
  - apply plain_cons in Hp as [Hs Hx]. push_append.
    rewrite fenced_regions_char by (apply starts_fence_before_fence; exact Hs).
    apply IH, Hx.
Qed.

(** Text without a marker holds no region, and closes none. *)
Lemma fenced_regions_no_fence (inside : bool) (x : string) :
  has_fence x = false -> fenced_regions inside x = [].
Proof.
  induction x as [|c x IH]; intros Hf; [reflexivity|].
  cbn [has_fence] in Hf. apply orb_false_iff in Hf as [Hs Hx].
  rewrite fenced_regions_char by exact Hs.
  destruct inside; rewrite (IH Hx); reflexivity.
Qed.

(** The scan returns the blocks of a structured document, in order. *)
Lemma fenced_regions_render (doc : list (string * string)) (tail : string) :
  well_formed doc tail ->
  fenced_regions false (render doc tail) = map snd doc.
Proof.
  intros [Hdoc Htail]. induction Hdoc as [|[t b] doc [Ht Hb] _ IH]; simpl.
  - apply fenced_regions_no_fence, Htail.
  - simpl in Ht, Hb.
    rewrite fenced_regions_open by exact Ht.
    rewrite fenced_regions_close by exact Hb.
    rewrite IH. reflexivity.
Qed.

Lemma has_newline_app (a b : string) :
  Trimming.has_newline (a ++ b)
  = Trimming.has_newline a || Trimming.has_newline b.
Proof.
  induction a as [|c a IH]; [reflexivity|]. push_append. simpl.
  rewrite IH, orb_assoc. reflexivity.
Qed.

(** What [drop_language_tag] drops is the first line. *)
Lemma after_first_line_some (s body : string) :
  after_first_line s = Some body ->
  exists tag,
    Trimming.has_newline tag = false /\ s = tag ++ String newline body.
Proof.
  induction s as [|c s IH]; simpl; [discriminate|].
  destruct (Ascii.eqb_spec c newline) as [->|Hc].
  - intros [= ->]. exists EmptyString. split; reflexivity.
  - intros H. destruct (IH H) as (tag & Ht & ->).
    exists (String c tag). split; [|reflexivity]. simpl.
    rewrite Ht. destruct (Ascii.eqb_spec c newline); [contradiction|reflexivity].
Qed.

Lemma after_first_line_none (s : string) :
  after_first_line s = None -> Trimming.has_newline s = false.
Proof.
  induction s as [|c s IH]; simpl; [reflexivity|].
  destruct (Ascii.eqb c newline); [discriminate|]. exact IH.
Qed.

Lemma drop_language_tag_spec (region : string) :
  Trimming.tag_dropped region (drop_language_tag region).
Proof.
  unfold drop_language_tag.
  destruct (after_first_line region) as [body|] eqn:H.
  - destruct (after_first_line_some _ _ H) as (tag & Ht & ->).
    apply Trimming.tag_line, Ht.
  - apply Trimming.one_line, after_first_line_none, H.
Qed.

Lemma lstrip_spec (s : string) :
  exists lead,
    Trimming.all_space lead = true
    /\ s = lead ++ lstrip s
    /\ Trimming.starts_with_space (lstrip s) = false.
Proof.
  induction s as [|c s (lead & Hl & Hs & Hn)]; simpl.
  - exists EmptyString. repeat split.
  - destruct (is_space c) eqn:Hc.
    + exists (String c lead). simpl. rewrite Hc, Hl. push_append.
      rewrite <- Hs. repeat split. exact Hn.
    + exists EmptyString. simpl. rewrite Hc. repeat split.
Qed.

Lemma rstrip_spec (s : string) :
  exists trail,
    Trimming.all_space trail = true
    /\ s = rstrip s ++ trail
    /\ Trimming.ends_with_space (rstrip s) = false.
Proof.
  induction s as [|c s (trail & Ht & Hs & Hn)]; simpl.
  - exists EmptyString. repeat split.
  - destruct (rstrip s) as [|a q] eqn:Hr.
    + rewrite append_empty_l in Hs. subst s. destruct (is_space c) eqn:Hc.
      * exists (String c trail). simpl. rewrite Hc, Ht. repeat split.
      * exists trail. simpl. rewrite Hc. repeat split. exact Ht.
    + exists trail. rewrite append_cons in Hs. push_append. rewrite <- Hs.
      repeat split; assumption.
Qed.

Lemma rstrip_keeps_start (s : string) :
  Trimming.starts_with_space s = false ->
  Trimming.starts_with_space (rstrip s) = false.
Proof.
  destruct s as [|c s]; simpl; [reflexivity|]. intros Hc.
  destruct (rstrip s); [rewrite Hc|]; exact Hc.
Qed.

(** [trim_block] computes the trimmed content. *)
Lemma trim_block_spec (region : string) :
  Trimming.trimmed_content region (trim_block region).
Proof.
  unfold trim_block, strip.
  destruct (lstrip_spec (drop_language_tag region)) as (lead & Hl & Hs & Hn).
  destruct (rstrip_spec (lstrip (drop_language_tag region)))
    as (trail & Ht & Hs' & Hn').
  exists (drop_language_tag region), lead, trail.
  split; [apply drop_language_tag_spec|]. split; [exact Hl|].
  split; [exact Ht|]. split; [rewrite <- Hs'; exact Hs|].
  split; [apply rstrip_keeps_start, Hn | exact Hn'].
Qed.

Lemma first_line_unique (t1 t2 b1 b2 : string) :
  Trimming.has_newline t1 = false ->
  Trimming.has_newline t2 = false ->
  t1 ++ String newline b1 = t2 ++ String newline b2 ->
  b1 = b2.
Proof.
  revert t2. induction t1 as [|c t1 IH]; intros [|d t2]; push_append; simpl.
  - intros _ _ [= ->]. reflexivity.
  - intros _ H [= <- _]. rewrite Ascii.eqb_refl in H. discriminate.
  - intros H _ [= -> _]. rewrite Ascii.eqb_refl in H. discriminate.
  - intros H1 H2 [= _ H]. apply orb_false_iff in H1 as [_ H1].
    apply orb_false_iff in H2 as [_ H2]. exact (IH t2 H1 H2 H).
Qed.

Lemma tag_dropped_functional (region b1 b2 : string) :
  Trimming.tag_dropped region b1 -> Trimming.tag_dropped region b2 -> b1 = b2.
Proof.
  intros H1 H2. destruct H1 as [t1 b1 Ht1|r1 Hr1].
  - inversion H2 as [t2 b2' Ht2 Heq|r2 Hr2 Heq]; subst.
    + exact (eq_sym (first_line_unique _ _ _ _ Ht2 Ht1 Heq)).
    + rewrite has_newline_app in Hr2. simpl in Hr2.
      rewrite orb_true_r in Hr2. discriminate.
  - inversion H2 as [t2 b2' Ht2 Heq|r2 Hr2 Heq]; subst; [|reflexivity].
    rewrite has_newline_app in Hr1. simpl in Hr1.
    rewrite orb_true_r in Hr1. discriminate.
Qed.

Lemma lstrip_all_space (s : string) :
  Trimming.all_space s = true -> lstrip s = EmptyString.
Proof.
  induction s as [|c s IH]; simpl; [reflexivity|].
  intros [Hc Hs]%andb_true_iff. rewrite Hc. exact (IH Hs).
Qed.

Lemma rstrip_all_space (s : string) :
  Trimming.all_space s = true -> rstrip s = EmptyString.
Proof.
  induction s as [|c s IH]; simpl; [reflexivity|].
  intros [Hc Hs]%andb_true_iff. rewrite (IH Hs), Hc. reflexivity.
Qed.

Lemma lstrip_lead (lead x : string) :
  Trimming.all_space lead = true -> lstrip (lead ++ x) = lstrip x.
Proof.
  induction lead as [|c lead IH]; [reflexivity|]. push_append. simpl.
  intros [Hc Hs]%andb_true_iff. rewrite Hc. exact (IH Hs).
Qed.

Lemma rstrip_trail (t trail : string) :
  Trimming.ends_with_space t = false ->
  Trimming.all_space trail = true ->
  rstrip (t ++ trail) = t.
Proof.
  intros Ht Hr. induction t as [|c t IH]; push_append.
  - apply rstrip_all_space, Hr.
  - simpl. destruct t as [|a q].
    + push_append. rewrite (rstrip_all_space _ Hr). simpl in Ht.
      rewrite Ht. reflexivity.
    + rewrite (IH Ht). reflexivity.
Qed.

(** White space around a text that neither starts nor ends with white
    space is what [strip] removes, and nothing else. *)
Lemma strip_unique (lead t trail : string) :
  Trimming.all_space lead = true ->
  Trimming.all_space trail = true ->
  Trimming.starts_with_space t = false ->
  Trimming.ends_with_space t = false ->
  strip (lead ++ t ++ trail) = t.
Proof.
  intros Hl Hr Hs He. unfold strip. rewrite (lstrip_lead _ _ Hl).
  destruct t as [|c t].
  - push_append. rewrite (lstrip_all_space _ Hr). reflexivity.
  - push_append. simpl in Hs. simpl. rewrite Hs.
    exact (rstrip_trail (String c t) trail He Hr).
Qed.

(** A region has one trimmed content, the one [trim_block] computes. *)
Lemma trimmed_content_functional (region content : string) :
  Trimming.trimmed_content region content -> content = trim_block region.
Proof.
  intros (body & lead & trail & Hd & Hl & Hr & -> & Hs & He).
  unfold trim_block.
  rewrite (tag_dropped_functional _ _ _ (drop_language_tag_spec region) Hd).
  symmetry. apply strip_unique; assumption.
Qed.

(** C6. The extractor on a document with zero, one or several fenced
    blocks: with no block the result is no code (the empty string); with
    one block it is that block's trimmed content (the block without the
    line of its opening marker and without the white space around what
    is left); with two or more it is the trimmed contents in document
    order, joined by two line breaks, which leave one blank line between
    them.  The text outside the blocks plays no part. *)
Theorem extract_and_combine_codeblocks_spec
    (doc : list (string * string)) (tail : string) :
  well_formed doc tail ->
  exists contents,
    Forall2 Trimming.trimmed_content (map snd doc) contents
    /\ extract_and_combine_codeblocks (render doc tail) =
         match contents with
         | [] => EmptyString
         | [content] => content
         | _ =>
             String.concat (String newline (String newline EmptyString))
               contents
         end.
Proof.
  intros Hwf. exists (map trim_block (map snd doc)). split.
  - apply Forall2_fmap_r, Forall_Forall2_diag, Forall_forall.
    intros b _. apply trim_block_spec.
  - unfold extract_and_combine_codeblocks.
    rewrite fenced_regions_render by exact Hwf.
    destruct doc as [|[t b] [|tb doc]]; reflexivity.
Qed.

Lemma extract_and_combine_codeblocks_spec_witness :
  well_formed MoreCases.padded_blocks "Done."
  /\ render MoreCases.padded_blocks "Done." = MoreCases.padded_text
  /\ extract_and_combine_codeblocks MoreCases.padded_text
     = "x = 1" ++ String newline (String newline "print(x)")
  /\ exists contents,
      Forall2 Trimming.trimmed_content
        (map snd MoreCases.padded_blocks) contents
      /\ extract_and_combine_codeblocks MoreCases.padded_text =
           match contents with
           | [] => EmptyString
           | [content] => content
           | _ =>
               String.concat (String newline (String newline EmptyString))
                 contents
           end.
Proof.
  assert (W : well_formed MoreCases.padded_blocks "Done.")
    by (split; [repeat constructor | reflexivity]).
  split; [exact W|]. split; [reflexivity|]. split; [reflexivity|].
  exact (extract_and_combine_codeblocks_spec MoreCases.padded_blocks "Done." W).
Defined.

(** The output on a text with one block, and on a text with none. *)
Example extract_single_block :
  extract_and_combine_codeblocks "Run ```  print(2+2) ``` now" = "print(2+2)"
  /\ extract_and_combine_codeblocks "The answer is 4." = EmptyString.
Proof. split; reflexivity. Qed.

(** An opening marker that is never closed opens no block. *)
Lemma extract_unterminated (t0 rest : string) :
  plain t0 = true ->
  has_fence rest = false ->
  extract_and_combine_codeblocks (t0 ++ fence ++ rest) = EmptyString.
Proof.
  intros Ht Hr. unfold extract_and_combine_codeblocks.
  rewrite fenced_regions_open by exact Ht.
  rewrite fenced_regions_no_fence by exact Hr. reflexivity.
Qed.

Example extract_tagged_block :
  extract_and_combine_codeblocks
    ("Here:" ++ Scenario.nl ++ "```python" ++ Scenario.nl ++ "print(2+2)"
     ++ Scenario.nl ++ "```" ++ Scenario.nl ++ "Done.")
  = "print(2+2)".
Proof. reflexivity. Qed.

Example extract_open_fence :
  extract_and_combine_codeblocks
    ("text ```python" ++ Scenario.nl ++ "x = 1")
  = EmptyString.
Proof. reflexivity. Qed.

Example extract_empty_block :
  fenced_regions false Scenario.reply_empty_block = [Scenario.nl]
  /\ extract_and_combine_codeblocks Scenario.reply_empty_block = EmptyString.
Proof. split; reflexivity. Qed.

End Extractor.

(** ** The nodes *)

Section Nodes.

Import CodeAct.

Variable extract_and_combine_codeblocks : string -> string.
Variable model : nat -> list Message -> Result string.
Variable eval_fn : EvalFn.
Variable prompt_arg : option string.

Local Abbreviation call_model :=
  (call_model extract_and_combine_codeblocks model prompt_arg).
Local Abbreviation model_input := (model_input prompt_arg).
Local Abbreviation sandbox := (sandbox eval_fn).
Local Abbreviation step :=
  (step extract_and_combine_codeblocks model eval_fn prompt_arg).
Local Abbreviation run :=
  (run extract_and_combine_codeblocks model eval_fn prompt_arg).

Lemma call_model_ok (k : nat) (st : CodeActState) (text : string) :
  model k (model_input st) = Ok text ->
  call_model k st =
    Ok (if truthy (extract_and_combine_codeblocks text)
        then continue_with text (extract_and_combine_codeblocks text)
        else stop_with text).
Proof.
  intros Hm. unfold CodeAct.call_model. rewrite Hm. simpl.
  destruct (truthy _); reflexivity.
Qed.

Lemma call_model_raise (k : nat) (st : CodeActState) (e : exn) :
  model k (model_input st) = Raise e -> call_model k st = Raise e.
Proof. intros Hm. unfold CodeAct.call_model. rewrite Hm. reflexivity. Qed.

(** The async and the sync definition of the node are the same function. *)
Lemma sandbox_unfold (k : nat) (st : CodeActState) :
  sandbox k st =
    s ← getitem_script st;
    output ← call1 (callable eval_fn) k s;
    Ok {| upd_messages := [{| role := user; content := output |}];
          upd_script := None;
          upd_context := None |}.
Proof. unfold CodeAct.sandbox. destruct (iscoroutinefunction eval_fn); reflexivity. Qed.

Lemma sandbox_ok (k : nat) (st : CodeActState) (s : option string) (output : string) :
  script st = Some s ->
  call1 (callable eval_fn) k s = Ok output ->
  sandbox k st =
    Ok {| upd_messages := [{| role := user; content := output |}];
          upd_script := None;
          upd_context := None |}.
Proof.
  intros Hs Hc. rewrite sandbox_unfold. unfold getitem_script.
  rewrite Hs. simpl. rewrite Hc. reflexivity.
Qed.

Lemma sandbox_raise (k : nat) (st : CodeActState) (s : option string) (e : exn) :
  script st = Some s ->
  call1 (callable eval_fn) k s = Raise e ->
  sandbox k st = Raise e.
Proof.
  intros Hs Hc. rewrite sandbox_unfold. unfold getitem_script.
  rewrite Hs. simpl. rewrite Hc. reflexivity.
Qed.

Lemma sandbox_inv (k : nat) (st : CodeActState) (u : Update) :
  sandbox k st = Ok u ->
  exists s output,
    script st = Some s
    /\ call1 (callable eval_fn) k s = Ok output
    /\ u = {| upd_messages := [{| role := user; content := output |}];
              upd_script := None;
              upd_context := None |}.
Proof.
  rewrite sandbox_unfold. unfold getitem_script.
  destruct (script st) as [s|]; simpl; [|discriminate].
  destruct (call1 (callable eval_fn) k s) as [output|e] eqn:Hc; simpl;
    [|discriminate].
  intros [= <-]. exists s, output. auto.
Qed.

Lemma step_model_continue (c : Config) (text : string) :
  at_node c = node_call_model ->
  model (model_calls c) (model_input (state c)) = Ok text ->
  extract_and_combine_codeblocks text <> EmptyString ->
  step c =
    Next {| at_node := node_sandbox;
            state := after_model (state c) text
                       (Some (extract_and_combine_codeblocks text));
            model_calls := S (model_calls c);
            sandbox_calls := sandbox_calls c |}.
Proof.
  intros Hn Hm Hc. unfold CodeAct.step. rewrite Hn.
  rewrite (call_model_ok _ _ _ Hm).
  apply truthy_true in Hc. rewrite Hc. reflexivity.
Qed.

Lemma step_model_stop (c : Config) (text : string) :
  at_node c = node_call_model ->
  model (model_calls c) (model_input (state c)) = Ok text ->
  extract_and_combine_codeblocks text = EmptyString ->
  step c =
    Done {| at_node := node_call_model;
            state := after_model (state c) text None;
            model_calls := S (model_calls c);
            sandbox_calls := sandbox_calls c |}.
Proof.
  intros Hn Hm Hc. unfold CodeAct.step. rewrite Hn.
  rewrite (call_model_ok _ _ _ Hm).
  apply truthy_false in Hc. rewrite Hc. reflexivity.
Qed.

Lemma step_model_raise (c : Config) (e : exn) :
  at_node c = node_call_model ->
  model (model_calls c) (model_input (state c)) = Raise e ->
  step c =
    Failed e {| at_node := node_call_model; state := state c;
                model_calls := S (model_calls c);
                sandbox_calls := sandbox_calls c |}.
Proof.
  intros Hn Hm. unfold CodeAct.step. rewrite Hn.
  rewrite (call_model_raise _ _ _ Hm). reflexivity.
Qed.

Lemma step_sandbox_ok (c : Config) (s : option string) (output : string) :
  at_node c = node_sandbox ->
  script (state c) = Some s ->
  call1 (callable eval_fn) (sandbox_calls c) s = Ok output ->
  step c =
    Next {| at_node := node_call_model;
            state := after_sandbox (state c) output;
            model_calls := model_calls c;
            sandbox_calls := S (sandbox_calls c) |}.
Proof.
  intros Hn Hs Hc. unfold CodeAct.step. rewrite Hn.
  rewrite (sandbox_ok _ _ _ _ Hs Hc). reflexivity.
Qed.

Lemma step_sandbox_raise (c : Config) (e : exn) :
  at_node c = node_sandbox ->
  sandbox (sandbox_calls c) (state c) = Raise e ->
  step c =
    Failed e {| at_node := node_sandbox; state := state c;
                model_calls := model_calls c;
                sandbox_calls := S (sandbox_calls c) |}.
Proof.
  intros Hn Hs. unfold CodeAct.step. rewrite Hn, Hs. reflexivity.
Qed.

(** What a step that completes looks like, node by node. *)
Lemma step_completes_inv (c c' : Config) :
  steps_to extract_and_combine_codeblocks model eval_fn prompt_arg c c' ->
  (at_node c = node_call_model
   /\ exists text,
       model (model_calls c) (model_input (state c)) = Ok text
       /\ ((extract_and_combine_codeblocks text <> EmptyString
            /\ step c = Next c'
            /\ c' = {| at_node := node_sandbox;
                       state := after_model (state c) text
                                  (Some (extract_and_combine_codeblocks text));
                       model_calls := S (model_calls c);
                       sandbox_calls := sandbox_calls c |})
           \/ (extract_and_combine_codeblocks text = EmptyString
               /\ step c = Done c'
               /\ c' = {| at_node := node_call_model;
                          state := after_model (state c) text None;
                          model_calls := S (model_calls c);
                          sandbox_calls := sandbox_calls c |})))
  \/ (at_node c = node_sandbox
      /\ step c = Next c'
      /\ exists s output,
          script (state c) = Some s
          /\ call1 (callable eval_fn) (sandbox_calls c) s = Ok output
          /\ c' = {| at_node := node_call_model;
                     state := after_sandbox (state c) output;
                     model_calls := model_calls c;
                     sandbox_calls := S (sandbox_calls c) |}).
Proof.
  intros Hst. destruct (at_node c) eqn:Hn; [left|right]; split; try reflexivity.
  - destruct (model (model_calls c) (model_input (state c))) as [text|e] eqn:Hm.
    + exists text. split; [reflexivity|].
      destruct (extract_and_combine_codeblocks text) as [|a code] eqn:Hc.
      * right. split; [reflexivity|].
        pose proof (step_model_stop c text Hn Hm Hc) as Hs.
        destruct Hst as [Hst|Hst]; rewrite Hs in Hst; [discriminate|].
        injection Hst as <-. split; [exact Hs | reflexivity].
      * left. split; [discriminate|].
        assert (Hne : extract_and_combine_codeblocks text <> EmptyString)
          by (rewrite Hc; discriminate).
        pose proof (step_model_continue c text Hn Hm Hne) as Hs.
        rewrite Hc in Hs.
        destruct Hst as [Hst|Hst]; rewrite Hs in Hst; [|discriminate].
        injection Hst as <-. split; [exact Hs | reflexivity].
    + pose proof (step_model_raise c e Hn Hm) as Hs.
      destruct Hst as [Hst|Hst]; rewrite Hs in Hst; discriminate.
  - destruct (sandbox (sandbox_calls c) (state c)) as [u|e] eqn:Hs.
    + apply sandbox_inv in Hs as (s & output & Hscr & Hcall & ->).
      pose proof (step_sandbox_ok c s output Hn Hscr Hcall) as Hstep.
      destruct Hst as [Hst|Hst]; rewrite Hstep in Hst; [|discriminate].
      injection Hst as <-. split; [exact Hstep|]. eauto.
    + pose proof (step_sandbox_raise c e Hn Hs) as Hstep.
      destruct Hst as [Hst|Hst]; rewrite Hstep in Hst; discriminate.
Qed.

End Nodes.

(** ** Runs *)

Lemma final_content_after_model (c : CodeAct.Config)
    (st : CodeAct.CodeActState) (text : string) (s : option string) :
  CodeAct.state c = CodeAct.after_model st text s ->
  CodeAct.final_content c = Some text.
Proof.
  intros Hs. unfold CodeAct.final_content. rewrite Hs. simpl.
  rewrite last_snoc. reflexivity.
Qed.

Section Runs.

Import CodeAct.

Variable extract_and_combine_codeblocks : string -> string.
Variable model : nat -> list Message -> Result string.
Variable eval_fn : EvalFn.
Variable prompt_arg : option string.

Local Abbreviation step :=
  (step extract_and_combine_codeblocks model eval_fn prompt_arg).
Local Abbreviation run :=
  (run extract_and_combine_codeblocks model eval_fn prompt_arg).
Local Abbreviation invoke :=
  (invoke extract_and_combine_codeblocks model eval_fn prompt_arg).
Local Abbreviation steps_to :=
  (steps_to extract_and_combine_codeblocks model eval_fn prompt_arg).

Lemma start_at_model (input : CodeActState) :
  start input =
    Some {| at_node := node_call_model; state := input;
            model_calls := 0; sandbox_calls := 0 |}.
Proof. reflexivity. Qed.

Lemma run_next (fuel : nat) (c c' : Config) :
  step c = Next c' -> run (S fuel) c = run fuel c'.
Proof. intros Hs. simpl. rewrite Hs. reflexivity. Qed.


Lemma invoke_unfold (fuel : nat) (input : CodeActState) :
  invoke fuel input =
    Some (run fuel {| at_node := node_call_model; state := input;
                      model_calls := 0; sandbox_calls := 0 |}).
Proof. reflexivity. Qed.

(** A run that has finished finishes the same way on more fuel. *)
Lemma run_finished_more (fuel extra : nat) (c c' : Config) :
  run fuel c = Finished c' -> run (fuel + extra) c = Finished c'.
Proof.
  revert c. induction fuel as [|fuel IH]; intros c; simpl; [discriminate|].
  destruct (step c) as [c1|c1|e c1]; auto.
Qed.

Lemma run_finished_ge (fuel fuel' : nat) (c c' : Config) :
  run fuel c = Finished c' -> fuel <= fuel' -> run fuel' c = Finished c'.
Proof.
  intros Hr Hle. replace fuel' with (fuel + (fuel' - fuel)) by lia.
  apply run_finished_more, Hr.
Qed.


(** The loop on a model that answers [n] times with code and then with
    text, entered at the model node. *)
Lemma run_iterations (responses : nat -> string) (n : nat) :
  forall c : Config,
    at_node c = node_call_model ->
    (forall j req, j <= n ->
       model (model_calls c + j) req = Ok (responses (model_calls c + j))) ->
    (forall j, j < n ->
       extract_and_combine_codeblocks (responses (model_calls c + j))
       <> EmptyString) ->
    extract_and_combine_codeblocks (responses (model_calls c + n))
    = EmptyString ->
    (forall j, j < n ->
       exists out,
         call1 (callable eval_fn) (sandbox_calls c + j)
           (Some (extract_and_combine_codeblocks
                    (responses (model_calls c + j)))) = Ok out) ->
    exists c',
      run (2 * n + 1) c = Finished c'
      /\ model_calls c' = model_calls c + n + 1
      /\ sandbox_calls c' = sandbox_calls c + n
      /\ final_content c' = Some (responses (model_calls c + n)).
Proof.
  induction n as [|n IH]; intros c Hn Hmodel Hcode Hstop Heval.
  - rewrite Nat.add_0_r in Hstop.
    pose proof (Hmodel 0 (model_input prompt_arg (state c)) (le_n 0)) as Hm.
    rewrite Nat.add_0_r in Hm.
    pose proof (step_model_stop _ _ eval_fn _ c _ Hn Hm Hstop) as Hs.
    eexists. split; [simpl; rewrite Hs; reflexivity|].
    split; [simpl; lia|]. split; [simpl; lia|].
    rewrite Nat.add_0_r. eapply final_content_after_model. reflexivity.
  - pose proof (Hmodel 0 (model_input prompt_arg (state c)) (Nat.le_0_l _)) as Hm.
    pose proof (Hcode 0 (Nat.lt_0_succ _)) as Hc.
    destruct (Heval 0 (Nat.lt_0_succ _)) as [out Hout].
    rewrite Nat.add_0_r in Hm, Hc. rewrite !Nat.add_0_r in Hout.
    pose proof (step_model_continue _ _ eval_fn _ c _ Hn Hm Hc) as Hs1.
    set (c1 := {| at_node := node_sandbox;
                  state := after_model (state c) (responses (model_calls c))
                             (Some (extract_and_combine_codeblocks
                                      (responses (model_calls c))));
                  model_calls := S (model_calls c);
                  sandbox_calls := sandbox_calls c |}) in Hs1.
    pose proof (step_sandbox_ok extract_and_combine_codeblocks model eval_fn
                  prompt_arg c1 _ out eq_refl eq_refl Hout) as Hs2.
    set (c2 := {| at_node := node_call_model;
                  state := after_sandbox (state c1) out;
                  model_calls := model_calls c1;
                  sandbox_calls := S (sandbox_calls c1) |}) in Hs2.
    destruct (IH c2) as (c' & Hrun & Hmc & Hsc & Hfin).
    + reflexivity.
    + intros j req Hj. simpl.
      specialize (Hmodel (S j) req ltac:(lia)).
      rewrite Nat.add_succ_r in Hmodel. exact Hmodel.
    + intros j Hj. simpl.
      specialize (Hcode (S j) ltac:(lia)).
      rewrite Nat.add_succ_r in Hcode. exact Hcode.
    + simpl. rewrite Nat.add_succ_r in Hstop. exact Hstop.
    + intros j Hj. simpl.
      specialize (Heval (S j) ltac:(lia)).
      rewrite !Nat.add_succ_r in Heval. exact Heval.
    + exists c'.
      replace (2 * S n + 1) with (S (S (2 * n + 1))) by lia.
      rewrite (run_next _ _ _ Hs1), (run_next _ _ _ Hs2).
      split; [exact Hrun|]. simpl in Hmc, Hsc, Hfin.
      rewrite (Nat.add_succ_r (model_calls c) n).
      repeat split; [lia | lia | exact Hfin].
Qed.

End Runs.

(** The loop can be made to iterate any number of times: a model that
    answers [n] times with a script drives [n] evaluations. *)
Lemma runs_of_any_length (prompt_arg : option string) (n : nat) :
  exists (model : nat -> list CodeAct.Message -> Result string) (c : CodeAct.Config),
    (forall fuel, 2 * n + 1 <= fuel ->
       CodeAct.invoke Utils.extract_and_combine_codeblocks model
         Scenario.eval_ok prompt_arg fuel (CodeAct.user_input Scenario.question)
       = Some (CodeAct.Finished c))
    /\ CodeAct.sandbox_calls c = n.
Proof.
  set (responses := fun k : nat =>
         if Nat.ltb k n then Scenario.reply_code else Scenario.reply_final).
  set (model := fun (k : nat) (_ : list CodeAct.Message) =>
         @Ok string (responses k)).
  destruct (run_iterations Utils.extract_and_combine_codeblocks model
              Scenario.eval_ok prompt_arg responses n Scenario.c0)
    as (c & Hrun & _ & Hsc & _).
  - reflexivity.
  - reflexivity.
  - intros j Hj. simpl. unfold responses.
    destruct (Nat.ltb_spec j n); [|lia]. vm_compute. discriminate.
  - simpl. unfold responses.
    destruct (Nat.ltb_spec n n); [lia|]. vm_compute. reflexivity.
  - intros j Hj. eexists. reflexivity.
  - exists model, c. split; [|exact Hsc].
    intros fuel Hfuel. unfold CodeAct.invoke. rewrite start_at_model. simpl.
    f_equal. apply (run_finished_ge _ _ _ _ _ _ _ _ Hrun Hfuel).
Qed.

(** ** The loop *)

Section Loop.

Import CodeAct.

Variable extract_and_combine_codeblocks : string -> string.
Variable model : nat -> list Message -> Result string.
Variable eval_fn : EvalFn.
Variable prompt_arg : option string.

Local Abbreviation call_model :=
  (call_model extract_and_combine_codeblocks model prompt_arg).
Local Abbreviation model_input := (model_input prompt_arg).
Local Abbreviation sandbox := (sandbox eval_fn).
Local Abbreviation step :=
  (step extract_and_combine_codeblocks model eval_fn prompt_arg).
Local Abbreviation run :=
  (run extract_and_combine_codeblocks model eval_fn prompt_arg).
Local Abbreviation steps_to :=
  (steps_to extract_and_combine_codeblocks model eval_fn prompt_arg).
Local Abbreviation reachable :=
  (reachable extract_and_combine_codeblocks model eval_fn prompt_arg).



(** C9. The model step reads [messages] only: on two states with the
    same messages, the same call to the same model gives the same
    command (appended message, script, next node) or the same
    exception, whatever their [script] and [context]. *)
Theorem call_model_reads_only_messages (k : nat) (st1 st2 : CodeActState) :
  messages st1 = messages st2 ->
  call_model k st1 = call_model k st2.
Proof.
  intros Hm. unfold CodeAct.call_model, CodeAct.model_input.
  rewrite Hm. reflexivity.
Qed.


(** C8. When the evaluator raises, the sandbox step raises the same
    exception and so does the run: no further call is made, to the
    evaluator or to the model, and the state is the one the step was
    given, with no message appended and no field changed. *)
Theorem evaluator_failure_propagates (c : Config) (s : option string) (e : exn) :
  at_node c = node_sandbox ->
  script (state c) = Some s ->
  call1 (callable eval_fn) (sandbox_calls c) s = Raise e ->
  let failed :=
    {| at_node := node_sandbox; state := state c;
       model_calls := model_calls c;
       sandbox_calls := S (sandbox_calls c) |} in
  sandbox (sandbox_calls c) (state c) = Raise e
  /\ step c = Failed e failed
  /\ forall fuel, run (S fuel) c = Raised e failed.
Proof.
  intros Hn Hs Hc failed.
  pose proof (sandbox_raise eval_fn _ _ _ _ Hs Hc) as Hr.
  pose proof (step_sandbox_raise extract_and_combine_codeblocks model
                eval_fn prompt_arg c e Hn Hr) as Hstep.
  split; [exact Hr|]. split; [exact Hstep|].
  intros fuel. simpl. rewrite Hstep. reflexivity.
Qed.

(** C10. In a run entered at the model node, whenever the sandbox node is
    about to execute, [script] holds a non-empty string, the code the
    model node has just extracted: the node's read of [script] finds
    neither a missing key nor [None]. *)
Theorem sandbox_sees_script (init c : Config) :
  at_node init = node_call_model ->
  reachable init c ->
  at_node c = node_sandbox ->
  exists s,
    script (state c) = Some (Some s)
    /\ s <> EmptyString
    /\ getitem_script (state c) = Ok (Some s).
Proof.
  intros Hinit Hr. induction Hr as [|c c' Hr IH Hs]; intros Hn.
  - rewrite Hinit in Hn. discriminate.
  - destruct (step_completes_inv _ _ _ _ c c' (or_introl Hs))
      as [(_ & text & _ & [(Hc & _ & ->)|(_ & Hd & _)])
         |(_ & _ & s & output & _ & _ & ->)].
    + exists (extract_and_combine_codeblocks text). repeat split. exact Hc.
    + rewrite Hs in Hd. discriminate.
    + discriminate.
Qed.

(** C7. From the sandbox node the run goes back to the model node after
    every evaluation that returns, whatever the text returned; no step of
    the sandbox node ends the run as done; the edge out of the sandbox
    node leads to the model node; and the number of iterations is not
    bounded: for every [n] some model drives a run through [n]
    evaluations. *)
Theorem sandbox_returns_to_model (c : Config) :
  at_node c = node_sandbox ->
  (forall s output,
      script (state c) = Some s ->
      call1 (callable eval_fn) (sandbox_calls c) s = Ok output ->
      step c =
        Next {| at_node := node_call_model;
                state := after_sandbox (state c) output;
                model_calls := model_calls c;
                sandbox_calls := S (sandbox_calls c) |})
  /\ (forall c', step c <> Done c')
  /\ successor create_codeact (At node_sandbox) = Some node_call_model
  /\ (forall n : nat,
        exists (m : nat -> list Message -> Result string) (final : Config),
          (forall fuel, 2 * n + 1 <= fuel ->
             invoke Utils.extract_and_combine_codeblocks m Scenario.eval_ok
               prompt_arg fuel (user_input Scenario.question)
             = Some (Finished final))
          /\ sandbox_calls final = n).
Proof.
  intros Hn. split; [|split; [|split]].
  - intros s output Hs Hc. apply (step_sandbox_ok _ _ _ _ c s); assumption.
  - intros c' Hd.
    destruct (step_completes_inv _ _ _ _ c c' (or_intror Hd))
      as [(Hm & _)|(_ & Hs & _)].
    + rewrite Hn in Hm. discriminate.
    + rewrite Hd in Hs. discriminate.
  - reflexivity.
  - intros n. apply runs_of_any_length.
Qed.


End Loop.

(** ** The evaluator of the server *)

Section Service.

Import SseServer.

Variable environ : Environ.
Variable post : nat -> Request -> Posted.

Lemma remote_eval_request (base key : string) (code : option string) :
  SANDBOX_URL environ = Some base ->
  AUTH_KEY environ = Some key ->
  forall k,
    remote_eval environ post k code "python" =
      match post k {| url := base ++ "/run_code"; body_code := code;
                      body_language := "python";
                      authorization := "Bearer " ++ key |} with
      | Unreachable => Raise ConnectionError
      | Replied response =>
          _ ← raise_for_status response; run_result_stdout response
      end.
Proof.
  intros Hb Hk k. unfold remote_eval. rewrite Hb, Hk. reflexivity.
Qed.

(** An unreachable sandbox raises out of [remote_eval]. *)
Lemma remote_eval_unreachable (base key : string) (code : option string) (k : nat) :
  SANDBOX_URL environ = Some base ->
  AUTH_KEY environ = Some key ->
  (forall req, post k req = Unreachable) ->
  remote_eval environ post k code "python" = Raise ConnectionError.
Proof.
  intros Hb Hk Hp. rewrite (remote_eval_request base key code Hb Hk).
  rewrite Hp. reflexivity.
Qed.

(** A reply with an error status, a rejected key for one, raises too. *)
Lemma remote_eval_http_error (base key : string) (code : option string)
    (k : nat) (r : Response) :
  SANDBOX_URL environ = Some base ->
  AUTH_KEY environ = Some key ->
  (forall req, post k req = Replied r) ->
  (400 <= status_code r < 600)%Z ->
  remote_eval environ post k code "python" = Raise (HTTPError (status_code r)).
Proof.
  intros Hb Hk Hp Hs. rewrite (remote_eval_request base key code Hb Hk).
  rewrite Hp. unfold raise_for_status.
  replace ((400 <=? status_code r)%Z) with true by (symmetry; apply Z.leb_le; lia).
  replace ((status_code r <? 600)%Z) with true by (symmetry; apply Z.ltb_lt; lia).
  reflexivity.
Qed.

(** Any other reply gives what the service reports as the output of the
    script, whether the script succeeded or failed. *)
Lemma remote_eval_reply (base key : string) (code : option string)
    (k : nat) (r : Response) :
  SANDBOX_URL environ = Some base ->
  AUTH_KEY environ = Some key ->
  (forall req, post k req = Replied r) ->
  (status_code r < 400)%Z ->
  remote_eval environ post k code "python" = run_result_stdout r.
Proof.
  intros Hb Hk Hp Hs. rewrite (remote_eval_request base key code Hb Hk).
  rewrite Hp. unfold raise_for_status.
  replace ((400 <=? status_code r)%Z) with false by (symmetry; apply Z.leb_gt; lia).
  reflexivity.
Qed.

(** A missing variable fails before any request is made. *)
Lemma remote_eval_no_url (code : option string) (k : nat) :
  SANDBOX_URL environ = None ->
  remote_eval environ post k code "python" = Raise (KeyError "SANDBOX_URL").
Proof. intros Hb. unfold remote_eval. rewrite Hb. reflexivity. Qed.

End Service.

(** ** The context *)

Section ContextField.

Import CodeAct.

Variable eval_fn : EvalFn.

(** The sandbox node does not read [context]. *)
Lemma sandbox_ignores_context (k : nat) (st : CodeActState)
    (ctx : option (gmap string string)) :
  sandbox eval_fn k
    {| messages := messages st; script := script st; context := ctx |}
  = sandbox eval_fn k st.
Proof. rewrite !sandbox_unfold. reflexivity. Qed.

(** Nor does it write it. *)
Lemma sandbox_keeps_context (k : nat) (st : CodeActState) (u : Update) :
  sandbox eval_fn k st = Ok u ->
  upd_context u = None /\ context (apply_update st u) = context st.
Proof.
  intros Hs. apply sandbox_inv in Hs as (s & output & _ & _ & ->).
  split; reflexivity.
Qed.


End ContextField.

(** C1 (the code does otherwise). On a state whose context binds [x], the
    sandbox node calls the evaluator with the script alone: an evaluator
    with the documented signature, which expects the context and would
    return a new one, is not called at all and the step raises
    [TypeError]; with the server's evaluator the step succeeds, its update
    has no [context] key, and the context of the state stays what it
    was. *)
Theorem sandbox_does_not_thread_context :
  CodeAct.sandbox Scenario.eval_documented 0 Scenario.with_binding
  = Raise (TypeError "missing 1 required positional argument")
  /\ exists u,
      CodeAct.sandbox Scenario.eval_ok 0 Scenario.with_binding = Ok u
      /\ CodeAct.upd_messages u
         = [{| CodeAct.role := CodeAct.user;
               CodeAct.content := "4" ++ Scenario.nl |}]
      /\ CodeAct.upd_context u = None
      /\ CodeAct.context (CodeAct.apply_update Scenario.with_binding u)
         = Some {[ "x" := "1" ]}.
Proof.
  split; [reflexivity|]. eexists. split; [reflexivity|]. repeat split.
Qed.


(** ** The properties on the run of the server *)

Section OnScenario.

Import CodeAct Scenario.

Local Abbreviation extract := Utils.extract_and_combine_codeblocks.

Lemma scenario_first_step :
  step extract model eval_ok None c0 = Next c1.
Proof. reflexivity. Qed.

Lemma scenario_reaches_sandbox :
  reachable extract model eval_ok None c0 c1.
Proof.
  apply (reachable_step _ _ _ _ c0 c0 c1).
  - apply reachable_init.
  - exact scenario_first_step.
Qed.

(** The run of section 8 of the specification: two model calls, one
    evaluation, and the answer last. *)
Example scenario_run :
  invoke extract model eval_ok None 3 (user_input question)
  = Some (Finished
      {| at_node := node_call_model;
         state :=
           {| messages :=
                [{| role := user; content := question |};
                 {| role := assistant; content := reply_code |};
                 {| role := user; content := "4" ++ nl |};
                 {| role := assistant; content := reply_final |}];
              script := Some None;
              context := None |};
         model_calls := 2;
         sandbox_calls := 1 |}).
Proof. reflexivity. Qed.

(** The same conversation against a sandbox that cannot be reached. *)
Example scenario_unreachable :
  invoke extract model eval_unreachable None 3 (user_input question)
  = Some (Raised ConnectionError
      {| at_node := node_sandbox;
         state := state c1;
         model_calls := 1;
         sandbox_calls := 1 |}).
Proof. reflexivity. Qed.

(** Two steps are not enough for it. *)
Example scenario_out_of_fuel :
  exists c, invoke extract model eval_ok None 2 (user_input question)
            = Some (OutOfFuel c).
Proof. eexists. reflexivity. Qed.



Lemma call_model_reads_only_messages_witness :
  messages (state c0) = messages (user_input question)
  /\ messages (user_input question)
     = messages {| messages := messages (user_input question);
                   script := Some (Some "x = 1");
                   context := Some {[ "x" := "1" ]} |}
  /\ call_model extract model None 0 (user_input question)
     = call_model extract model None 0
         {| messages := messages (user_input question);
            script := Some (Some "x = 1");
            context := Some {[ "x" := "1" ]} |}.
Proof.
  split; [reflexivity|]. split; [reflexivity|].
  exact (call_model_reads_only_messages extract model None 0
           (user_input question)
           {| messages := messages (user_input question);
              script := Some (Some "x = 1");
              context := Some {[ "x" := "1" ]} |} eq_refl).
Defined.


Lemma evaluator_failure_propagates_witness :
  at_node c1 = node_sandbox
  /\ script (state c1) = Some (Some "print(2+2)")
  /\ call1 (callable eval_unauthorized) (sandbox_calls c1) (Some "print(2+2)")
     = Raise (HTTPError 401)
  /\ sandbox eval_unauthorized 0 (state c1) = Raise (HTTPError 401)
  /\ step extract model eval_unauthorized None c1
     = Failed (HTTPError 401)
         {| at_node := node_sandbox; state := state c1;
            model_calls := 1; sandbox_calls := 1 |}
  /\ forall fuel,
       run extract model eval_unauthorized None (S fuel) c1
       = Raised (HTTPError 401)
           {| at_node := node_sandbox; state := state c1;
              model_calls := 1; sandbox_calls := 1 |}.
Proof.
  split; [reflexivity|]. split; [reflexivity|]. split; [reflexivity|].
  exact (evaluator_failure_propagates extract model eval_unauthorized None
           c1 (Some "print(2+2)") (HTTPError 401) eq_refl eq_refl eq_refl).
Defined.

Lemma sandbox_sees_script_witness :
  at_node c0 = node_call_model
  /\ step extract model eval_ok None c0 = Next c1
  /\ at_node c1 = node_sandbox
  /\ exists s,
      script (state c1) = Some (Some s)
      /\ s <> EmptyString
      /\ getitem_script (state c1) = Ok (Some s).
Proof.
  split; [reflexivity|]. split; [reflexivity|]. split; [reflexivity|].
  exact (sandbox_sees_script extract model eval_ok None c0 c1 eq_refl
           (reachable_step extract model eval_ok None c0 c0 c1
              (reachable_init extract model eval_ok None c0) eq_refl)
           eq_refl).
Defined.

Lemma sandbox_returns_to_model_witness :
  at_node c1 = node_sandbox
  /\ step extract model eval_ok None c1
     = Next {| at_node := node_call_model;
               state := after_sandbox (state c1) ("4" ++ nl);
               model_calls := 1; sandbox_calls := 1 |}
  /\ forall c', step extract model eval_ok None c1 <> Done c'.
Proof.
  pose proof (sandbox_returns_to_model extract model eval_ok None c1 eq_refl)
    as (Hnext & Hdone & _).
  split; [reflexivity|]. split; [|exact Hdone].
  exact (Hnext (Some "print(2+2)") ("4" ++ nl) eq_refl eq_refl).
Defined.


End OnScenario.

(** ** Invariants of a run *)

Section Invariants.

Import CodeAct.

Variable extract_and_combine_codeblocks : string -> string.
Variable model : nat -> list Message -> Result string.
Variable eval_fn : EvalFn.
Variable prompt_arg : option string.

Local Abbreviation model_input := (model_input prompt_arg).
Local Abbreviation step :=
  (step extract_and_combine_codeblocks model eval_fn prompt_arg).
Local Abbreviation run :=
  (run extract_and_combine_codeblocks model eval_fn prompt_arg).
Local Abbreviation invoke :=
  (invoke extract_and_combine_codeblocks model eval_fn prompt_arg).
Local Abbreviation steps_to :=
  (steps_to extract_and_combine_codeblocks model eval_fn prompt_arg).
Local Abbreviation reachable :=
  (reachable extract_and_combine_codeblocks model eval_fn prompt_arg).

Lemma reachable_front (c c1 c' : Config) :
  step c = Next c1 -> reachable c1 c' -> reachable c c'.
Proof.
  intros Hs Hr. induction Hr as [|c2 c3 _ IH Hs'].
  - eapply reachable_step; [apply reachable_init | exact Hs].
  - eapply reachable_step; [exact IH | exact Hs'].
Qed.

(** How a run ends: out of fuel in a configuration it has reached, or by a
    last step, completed or failed, from such a configuration. *)
Lemma run_inv (fuel : nat) (c : Config) :
  match run fuel c with
  | OutOfFuel c' => reachable c c'
  | Finished c' => exists c0, reachable c c0 /\ step c0 = Done c'
  | Raised e c' => exists c0, reachable c c0 /\ step c0 = Failed e c'
  end.
Proof.
  revert c. induction fuel as [|fuel IH]; intros c; simpl.
  - apply reachable_init.
  - destruct (step c) as [c1|c1|e c1] eqn:Hs.
    + specialize (IH c1). destruct (run fuel c1) as [c'|e c'|c'].
      * destruct IH as (c0 & Hr & Hd). exists c0.
        split; [exact (reachable_front _ _ _ Hs Hr) | exact Hd].
      * destruct IH as (c0 & Hr & Hd). exists c0.
        split; [exact (reachable_front _ _ _ Hs Hr) | exact Hd].
      * exact (reachable_front _ _ _ Hs IH).
    + exists c. split; [apply reachable_init | exact Hs].
    + exists c. split; [apply reachable_init | exact Hs].
Qed.

(** What a failed step looks like, node by node. *)
Lemma step_fails_inv (c c' : Config) (e : exn) :
  step c = Failed e c' ->
  state c' = state c
  /\ at_node c' = at_node c
  /\ ((at_node c = node_call_model
       /\ model (model_calls c) (model_input (state c)) = Raise e
       /\ model_calls c' = S (model_calls c)
       /\ sandbox_calls c' = sandbox_calls c)
      \/ (at_node c = node_sandbox
          /\ sandbox eval_fn (sandbox_calls c) (state c) = Raise e
          /\ model_calls c' = model_calls c
          /\ sandbox_calls c' = S (sandbox_calls c))).
Proof.
  intros Hs. destruct (at_node c) eqn:Hn.
  - destruct (model (model_calls c) (model_input (state c))) as [text|e'] eqn:Hm.
    + destruct (extract_and_combine_codeblocks text) as [|a code] eqn:Hc.
      * rewrite (step_model_stop _ _ eval_fn _ c text Hn Hm Hc) in Hs.
        discriminate.
      * assert (Hne : extract_and_combine_codeblocks text <> EmptyString)
          by (rewrite Hc; discriminate).
        rewrite (step_model_continue _ _ eval_fn _ c text Hn Hm Hne) in Hs.
        discriminate.
    + rewrite (step_model_raise extract_and_combine_codeblocks _ eval_fn _ c e' Hn Hm) in Hs.
      injection Hs as <- <-. simpl. auto 10.
  - destruct (sandbox eval_fn (sandbox_calls c) (state c)) as [u|e'] eqn:Hsb.
    + apply sandbox_inv in Hsb as (s & output & Hscr & Hcall & _).
      rewrite (step_sandbox_ok extract_and_combine_codeblocks model _
                 prompt_arg c s output Hn Hscr Hcall) in Hs.
      discriminate.
    + rewrite (step_sandbox_raise extract_and_combine_codeblocks model _
                 prompt_arg c e' Hn Hsb) in Hs.
      injection Hs as <- <-. simpl. auto 10.
Qed.

(** No completed step touches the context. *)
Lemma step_keeps_context (c c' : Config) :
  steps_to c c' -> context (state c') = context (state c).
Proof.
  intros Hst.
  destruct (step_completes_inv _ _ _ _ _ _ Hst)
    as [(_ & text & _ & [(_ & _ & ->)|(_ & _ & ->)])
       |(_ & _ & s & output & _ & _ & ->)];
    reflexivity.
Qed.

Lemma reachable_keeps_context (c c' : Config) :
  reachable c c' -> context (state c') = context (state c).
Proof.
  induction 1 as [|c1 c2 _ IH Hs]; [reflexivity|].
  rewrite (step_keeps_context c1 c2 (or_introl Hs)). exact IH.
Qed.

(** X1. A run never changes the context: however it ends, finished,
    failed or out of fuel, the context of its last state is the one of
    the state it started from. *)
Theorem run_keeps_context (fuel : nat) (c : Config) :
  context (state (result_config (run fuel c))) = context (state c).
Proof.
  pose proof (run_inv fuel c) as H.
  destruct (run fuel c) as [c'|e c'|c']; simpl.
  - destruct H as (c0 & Hr & Hd).
    rewrite (step_keeps_context c0 c' (or_intror Hd)).
    apply reachable_keeps_context, Hr.
  - destruct H as (c0 & Hr & Hf).
    destruct (step_fails_inv _ _ _ Hf) as (-> & _).
    apply reachable_keeps_context, Hr.
  - apply reachable_keeps_context, H.
Qed.



Lemma step_keeps_not_system (c c' : Config) :
  steps_to c c' ->
  Forall not_system (messages (state c)) ->
  Forall not_system (messages (state c')).
Proof.
  intros Hst Hall.
  destruct (step_completes_inv _ _ _ _ _ _ Hst)
    as [(_ & text & _ & [(_ & _ & ->)|(_ & _ & ->)])
       |(_ & _ & s & output & _ & _ & ->)];
    simpl; apply Forall_app; (split; [exact Hall|]);
    repeat constructor; discriminate.
Qed.

Lemma reachable_keeps_not_system (c c' : Config) :
  reachable c c' ->
  Forall not_system (messages (state c)) ->
  Forall not_system (messages (state c')).
Proof.
  induction 1 as [|c1 c2 _ IH Hs]; intros Hall; [exact Hall|].
  apply (step_keeps_not_system c1 c2 (or_introl Hs)), IH, Hall.
Qed.


(** X3. A run stores no system message: when the history it starts from
    holds none, neither does the history it ends with, however it ends,
    so the system prompt that heads every model input is the only one. *)
Theorem run_stores_no_system_message (fuel : nat) (c : Config) :
  Forall not_system (messages (state c)) ->
  Forall not_system (messages (state (result_config (run fuel c)))).
Proof.
  intros Hall. pose proof (run_inv fuel c) as H.
  destruct (run fuel c) as [c'|e c'|c']; simpl.
  - destruct H as (c0 & Hr & Hd).
    apply (step_keeps_not_system c0 c' (or_intror Hd)).
    apply (reachable_keeps_not_system c c0 Hr Hall).
  - destruct H as (c0 & Hr & Hf).
    destruct (step_fails_inv _ _ _ Hf) as (-> & _).
    apply (reachable_keeps_not_system c c0 Hr Hall).
  - apply (reachable_keeps_not_system c c' H Hall).
Qed.


(** X5. When the model raises, the model step raises the same exception
    and so does the run: the model is not called again, the evaluator is
    not called, and the state is the one the step was given. *)
Theorem model_failure_propagates (c : Config) (e : exn) :
  at_node c = node_call_model ->
  model (model_calls c) (model_input (state c)) = Raise e ->
  let failed :=
    {| at_node := node_call_model; state := state c;
       model_calls := S (model_calls c);
       sandbox_calls := sandbox_calls c |} in
  call_model extract_and_combine_codeblocks model prompt_arg
    (model_calls c) (state c) = Raise e
  /\ step c = Failed e failed
  /\ forall fuel, run (S fuel) c = Raised e failed.
Proof.
  intros Hn Hm failed.
  pose proof (step_model_raise extract_and_combine_codeblocks model eval_fn
                prompt_arg c e Hn Hm) as Hs.
  split; [apply call_model_raise, Hm|]. split; [exact Hs|].
  intros fuel. simpl. rewrite Hs. reflexivity.
Qed.



Lemma run_out_of_fuel (fuel : nat) :
  (forall k req, exists text,
      model k req = Ok text
      /\ extract_and_combine_codeblocks text <> EmptyString) ->
  (forall k s, exists out, call1 (callable eval_fn) k (Some s) = Ok out) ->
  forall c : Config,
    (at_node c = node_sandbox -> exists s, script (state c) = Some (Some s)) ->
    exists c',
      run fuel c = OutOfFuel c'
      /\ model_calls c' + sandbox_calls c'
         = model_calls c + sandbox_calls c + fuel.
Proof.
  intros Hmodel Heval. induction fuel as [|fuel IH]; intros c Hscr.
  - exists c. split; [reflexivity | lia].
  - destruct (at_node c) eqn:Hn.
    + destruct (Hmodel (model_calls c) (model_input (state c))) as (text & Hm & Hc).
      pose proof (step_model_continue _ _ eval_fn _ c text Hn Hm Hc) as Hs.
      rewrite (run_next _ _ _ _ _ _ _ Hs).
      destruct (IH {| at_node := node_sandbox;
                      state := after_model (state c) text
                                 (Some (extract_and_combine_codeblocks text));
                      model_calls := S (model_calls c);
                      sandbox_calls := sandbox_calls c |})
        as (c' & Hrun & Hcount); [intros _; eexists; reflexivity|].
      exists c'. split; [exact Hrun|]. simpl in Hcount. lia.
    + destruct (Hscr eq_refl) as (s & Hs0).
      destruct (Heval (sandbox_calls c) s) as (out & Hout).
      pose proof (step_sandbox_ok extract_and_combine_codeblocks model eval_fn
                    prompt_arg c (Some s) out Hn Hs0 Hout) as Hs.
      rewrite (run_next _ _ _ _ _ _ _ Hs).
      destruct (IH {| at_node := node_call_model;
                      state := after_sandbox (state c) out;
                      model_calls := model_calls c;
                      sandbox_calls := S (sandbox_calls c) |})
        as (c' & Hrun & Hcount); [discriminate|].
      exists c'. split; [exact Hrun|]. simpl in Hcount. lia.
Qed.

(** X7. The loop has no stop of its own: when every response of the
    model yields code and the evaluator answers every script, the run
    never finishes; on any budget it uses the whole of it, one call per
    node execution. *)
Theorem run_never_finishes_while_code (fuel : nat) (input : CodeActState) :
  (forall k req, exists text,
      model k req = Ok text
      /\ extract_and_combine_codeblocks text <> EmptyString) ->
  (forall k s, exists out, call1 (callable eval_fn) k (Some s) = Ok out) ->
  exists c,
    invoke fuel input = Some (OutOfFuel c)
    /\ model_calls c + sandbox_calls c = fuel.
Proof.
  intros Hmodel Heval. rewrite invoke_unfold.
  destruct (run_out_of_fuel fuel Hmodel Heval
              {| at_node := node_call_model; state := input;
                 model_calls := 0; sandbox_calls := 0 |})
    as (c & Hrun & Hcount); [discriminate|].
  exists c. rewrite Hrun. split; [reflexivity|]. simpl in Hcount. lia.
Qed.


End Invariants.

(** ** More on the evaluator of the server *)

Section ServiceCalls.

Import SseServer.

Variable environ : Environ.
Variable post : nat -> Request -> Posted.


(** X10. [remote_eval] fails without a request when the language is not
    python or a variable is missing, in this order of precedence: the
    language, then the address, then the key.  The exception does not
    depend on the service. *)
Theorem remote_eval_fails_before_request (k : nat) (code : option string)
    (language : string) :
  language <> "python" \/ SANDBOX_URL environ = None \/ AUTH_KEY environ = None ->
  remote_eval environ post k code language =
    Raise (if negb (String.eqb language "python")
           then ValueError ("Unsupported language: " ++ language)
           else match SANDBOX_URL environ with
                | None => KeyError "SANDBOX_URL"
                | Some _ => KeyError "AUTH_KEY"
                end).
Proof.
  intros H. unfold remote_eval.
  destruct (String.eqb_spec language "python") as [->|Hne]; simpl;
    [|reflexivity].
  destruct (SANDBOX_URL environ) as [base|]; simpl; [|reflexivity].
  destruct (AUTH_KEY environ) as [key|]; simpl; [|reflexivity].
  destruct H as [H|[H|H]]; congruence.
Qed.


(** X17. Once the request is made, a failure of the service is a failure
    of [remote_eval]: no connection raises [ConnectionError], and a reply
    with a status from 400 to 599 raises [HTTPError] with that status,
    also when the reply holds an output. *)
Theorem remote_eval_service_failures (base key : string)
    (code : option string) (k : nat) :
  SANDBOX_URL environ = Some base ->
  AUTH_KEY environ = Some key ->
  let request :=
    {| url := base ++ "/run_code"; body_code := code;
       body_language := "python"; authorization := "Bearer " ++ key |} in
  (post k request = Unreachable ->
     remote_eval environ post k code "python" = Raise ConnectionError)
  /\ (forall r,
        post k request = Replied r ->
        (400 <= status_code r < 600)%Z ->
        remote_eval environ post k code "python"
        = Raise (HTTPError (status_code r))).
Proof.
  intros Hb Hk request.
  rewrite (remote_eval_request environ post base key code Hb Hk).
  fold request. split.
  - intros ->. reflexivity.
  - intros r -> Hs. unfold raise_for_status.
    replace ((400 <=? status_code r)%Z) with true
      by (symmetry; apply Z.leb_le; lia).
    replace ((status_code r <? 600)%Z) with true
      by (symmetry; apply Z.ltb_lt; lia).
    reflexivity.
Qed.

End ServiceCalls.

(** ** The system prompt *)

Lemma string_app_assoc (a b c : string) : (a ++ b) ++ c = a ++ b ++ c.
Proof.
  induction a as [|x a IH]; [reflexivity|]. push_append. rewrite IH. reflexivity.
Qed.

Lemma string_app_inv_head (p a b : string) : p ++ a = p ++ b -> a = b.
Proof.
  induction p as [|x p IH]; [exact id|]. push_append. intros [= H]. auto.
Qed.

(** X12. The system message the model sees: without a [prompt] it is the
    default instructions; with one it is that prompt as given, even the
    empty one.  [create_default_prompt] in turn drops an empty base
    prompt as it drops a missing one, and puts any other before the
    default instructions, a blank line between them. *)
Theorem system_prompt_choice :
  (forall st,
      CodeAct.model_input None st
      = {| CodeAct.role := CodeAct.system;
           CodeAct.content := CodeAct.default_instructions |}
          :: CodeAct.messages st)
  /\ (forall p st,
        CodeAct.model_input (Some p) st
        = {| CodeAct.role := CodeAct.system; CodeAct.content := p |}
            :: CodeAct.messages st)
  /\ CodeAct.create_default_prompt (Some EmptyString)
     = CodeAct.create_default_prompt None
  /\ (forall b,
        b <> EmptyString ->
        CodeAct.create_default_prompt (Some b)
        = b ++ Utils.blank_line ++ CodeAct.default_instructions).
Proof.
  split; [reflexivity|]. split; [reflexivity|]. split; [reflexivity|].
  intros b Hb. unfold CodeAct.create_default_prompt.
  apply truthy_true in Hb. rewrite Hb. apply string_app_assoc.
Qed.

(** ** The response stream *)

Section Streaming.

Import SseStream.

Variable dumps : string -> string.

Lemma stream_response_of (items : list StreamItem) (ending : Stream) :
  stream_response dumps (stream_of items ending)
  = ((map (event_frame dumps) (message_contents items)
        ++ (stream_response dumps ending).1)%list,
     (stream_response dumps ending).2).
Proof.
  induction items as [|item items IH]; simpl.
  - destruct (stream_response dumps ending); reflexivity.
  - rewrite IH. destruct item; reflexivity.
Qed.

(** X13. The frames of a response: one event frame for each message
    piece of the agent's stream, in the order of the stream, and none for
    the states in between; then the completed frame when the stream
    ends, and no further frame, with the exception handed on, when the
    stream raises. *)
Theorem stream_response_frames (items : list StreamItem) :
  stream_response dumps (stream_of items StreamEnd)
  = ((map (event_frame dumps) (message_contents items)
        ++ [completed_frame])%list,
     None)
  /\ forall e,
      stream_response dumps (stream_of items (StreamRaise e))
      = (map (event_frame dumps) (message_contents items), Some e).
Proof.
  split; [|intros e]; rewrite stream_response_of; simpl.
  - reflexivity.
  - rewrite app_nil_r. reflexivity.
Qed.

End Streaming.

(** ** The encoding of the events *)

Section Encoding.

Import Json SseStream.






Lemma event_frame_not_completed (content : string) :
  event_frame dumps_event content <> completed_frame.
Proof.
  intros H. vm_compute in H. discriminate.
Qed.

(** X16. The completed frame marks the end of the stream and nothing
    else: no content makes an event frame equal to it, so a response
    that was cut short by an exception holds no completed frame, and a
    response that ran to the end holds it once, as its last frame. *)
Theorem completed_frame_marks_the_end (items : list StreamItem) :
  (forall e,
      completed_frame
      ∉ (stream_response dumps_event (stream_of items (StreamRaise e))).1)
  /\ exists events,
      (stream_response dumps_event (stream_of items StreamEnd)).1
      = (events ++ [completed_frame])%list
      /\ completed_frame ∉ events.
Proof.
  assert (Hev : completed_frame
                ∉ map (event_frame dumps_event) (message_contents items)).
  { intros Hin. apply list_elem_of_In, in_map_iff in Hin as (c & Hc & _).
    exact (event_frame_not_completed c Hc). }
  split.
  - intros e. rewrite stream_response_of. simpl. rewrite app_nil_r. exact Hev.
  - eexists. rewrite stream_response_of. simpl. split; [reflexivity | exact Hev].
Qed.

End Encoding.

(** ** The further properties on concrete runs *)

Section OnCases.

Import CodeAct Scenario Cases.

Local Abbreviation extract := Utils.extract_and_combine_codeblocks.

Lemma run_keeps_context_witness :
  context (state (result_config
             (run extract model eval_ok None 3
                {| at_node := node_call_model; state := with_binding;
                   model_calls := 0; sandbox_calls := 0 |})))
  = Some {[ "x" := "1" ]}.
Proof. exact (run_keeps_context extract model eval_ok None 3 _). Defined.


Lemma run_stores_no_system_message_witness :
  Forall not_system (messages (state c0))
  /\ Forall not_system
       (messages (state (result_config (run extract model eval_ok None 3 c0)))).
Proof.
  assert (H0 : Forall not_system (messages (state c0)))
    by (repeat constructor; discriminate).
  split; [exact H0|].
  exact (run_stores_no_system_message extract model eval_ok None 3 c0 H0).
Defined.


Lemma model_failure_propagates_witness :
  at_node c0 = node_call_model
  /\ model_down 0 (model_input None (state c0))
     = Raise (ServiceError "model unavailable")
  /\ call_model extract model_down None 0 (state c0)
     = Raise (ServiceError "model unavailable")
  /\ step extract model_down eval_ok None c0
     = Failed (ServiceError "model unavailable")
         {| at_node := node_call_model; state := state c0;
            model_calls := 1; sandbox_calls := 0 |}
  /\ forall fuel,
       run extract model_down eval_ok None (S fuel) c0
       = Raised (ServiceError "model unavailable")
           {| at_node := node_call_model; state := state c0;
              model_calls := 1; sandbox_calls := 0 |}.
Proof.
  split; [reflexivity|]. split; [reflexivity|].
  exact (model_failure_propagates extract model_down eval_ok None c0
           (ServiceError "model unavailable") eq_refl eq_refl).
Defined.


Lemma run_never_finishes_while_code_witness :
  (forall k req, exists text,
      model_loop k req = Ok text /\ extract text <> EmptyString)
  /\ (forall k s, exists out, call1 (callable eval_ok) k (Some s) = Ok out)
  /\ exists c,
      invoke extract model_loop eval_ok None 5 (user_input question)
      = Some (OutOfFuel c)
      /\ model_calls c + sandbox_calls c = 5.
Proof.
  assert (Hm : forall k req, exists text,
               model_loop k req = Ok text /\ extract text <> EmptyString)
    by (intros k req; exists reply_code; split;
        [reflexivity | vm_compute; discriminate]).
  assert (He : forall k s, exists out,
               call1 (callable eval_ok) k (Some s) = Ok out)
    by (intros k s; eexists; reflexivity).
  split; [exact Hm|]. split; [exact He|].
  exact (run_never_finishes_while_code extract model_loop eval_ok None 5
           (user_input question) Hm He).
Defined.



Lemma remote_eval_fails_before_request_witness :
  SseServer.SANDBOX_URL no_url = None
  /\ SseServer.remote_eval no_url post_ok 0 (Some "print(2+2)") "python"
     = Raise (KeyError "SANDBOX_URL")
  /\ SseServer.remote_eval environ post_ok 0 (Some "puts 4") "ruby"
     = Raise (ValueError "Unsupported language: ruby").
Proof.
  split; [reflexivity|]. split.
  - exact (remote_eval_fails_before_request no_url post_ok 0
             (Some "print(2+2)") "python" (or_intror (or_introl eq_refl))).
  - apply (remote_eval_fails_before_request environ post_ok 0
             (Some "puts 4") "ruby").
    left. discriminate.
Defined.


Lemma remote_eval_service_failures_witness :
  (400 <= 500 < 600)%Z
  /\ SseServer.remote_eval environ post_server_error 0 (Some "print(2+2)")
       "python"
     = Raise (HTTPError 500)
  /\ SseServer.remote_eval environ post_unreachable 0 (Some "print(2+2)")
       "python"
     = Raise ConnectionError.
Proof.
  split; [lia|]. split.
  - apply (proj2 (remote_eval_service_failures environ post_server_error
                    "http://sandbox" "secret" (Some "print(2+2)") 0
                    eq_refl eq_refl)
             {| SseServer.status_code := 500;
                SseServer.run_result_stdout := Ok "partial output" |}).
    + reflexivity.
    + simpl. lia.
  - exact (proj1 (remote_eval_service_failures environ post_unreachable
                    "http://sandbox" "secret" (Some "print(2+2)") 0
                    eq_refl eq_refl) eq_refl).
Defined.

Lemma system_prompt_choice_witness :
  "Be brief." <> EmptyString
  /\ create_default_prompt (Some "Be brief.")
     = "Be brief." ++ Utils.blank_line ++ default_instructions.
Proof.
  assert (H : "Be brief." <> EmptyString) by discriminate.
  split; [exact H|].
  exact (proj2 (proj2 (proj2 system_prompt_choice)) "Be brief." H).
Defined.

Example stream_of_the_scenario :
  SseStream.stream_response Json.dumps_event
    (SseStream.stream_of items SseStream.StreamEnd)
  = ([SseStream.event_frame Json.dumps_event reply_code;
      SseStream.event_frame Json.dumps_event ("4" ++ nl);
      SseStream.event_frame Json.dumps_event reply_final;
      SseStream.completed_frame],
     None).
Proof. reflexivity. Qed.

End OnCases.

(** ** The history and the ids of its messages *)

Section History.

Import Ids.

Variable extract_and_combine_codeblocks : string -> string.
Variable model : nat -> list CodeAct.Message -> Result string.
Variable response_id : nat -> list CodeAct.Message -> option string.
Variable uuid4 : nat -> nat -> string.
Variable eval_fn : CodeAct.EvalFn.
Variable prompt_arg : option string.

Local Abbreviation step :=
  (step extract_and_combine_codeblocks model response_id uuid4 eval_fn
     prompt_arg).
Local Abbreviation steps_to :=
  (steps_to extract_and_combine_codeblocks model response_id uuid4 eval_fn
     prompt_arg).
Local Abbreviation incoming_id := (incoming_id response_id uuid4 prompt_arg).
Local Abbreviation fresh := (fresh response_id uuid4 prompt_arg).
Local Abbreviation fresh_run :=
  (fresh_run extract_and_combine_codeblocks model response_id uuid4 eval_fn
     prompt_arg).

Lemma index_by_id_some (i : string) (left : list Stored) (k : nat) :
  index_by_id i left = Some k ->
  exists old, left !! k = Some old /\ msg_id old = i.
Proof.
  revert k. induction left as [|m rest IH]; intros k; simpl; [discriminate|].
  destruct (index_by_id i rest) as [k'|].
  - intros [= <-]. exact (IH k' eq_refl).
  - destruct (String.eqb_spec (msg_id m) i) as [Heq|_]; [|discriminate].
    intros [= <-]. exists m. split; [reflexivity | exact Heq].
Qed.

(** The model node returns one message, the response. *)
Lemma call_model_returns_one (k : nat) (st : CodeAct.CodeActState)
    (cmd : CodeAct.Command) :
  CodeAct.call_model extract_and_combine_codeblocks model prompt_arg k st
  = Ok cmd ->
  exists text,
    CodeAct.upd_messages (CodeAct.update cmd)
    = [{| CodeAct.role := CodeAct.assistant; CodeAct.content := text |}].
Proof.
  destruct (model k (CodeAct.model_input prompt_arg st)) as [text|e] eqn:Hm.
  - rewrite (call_model_ok _ _ _ _ _ _ Hm). intros [= <-]. exists text.
    destruct (truthy _); reflexivity.
  - rewrite (call_model_raise _ _ _ _ _ _ Hm). discriminate.
Qed.

(** A completed step hands one message to the reducer, under the id
    [incoming_id], and counts one call. *)
Lemma id_step_inv (c c' : Config) :
  steps_to c c' ->
  exists m,
    history c'
    = merge_one (history c) (history c)
        {| msg_id := incoming_id c; stored := m |}
    /\ executions c' = S (executions c).
Proof.
  unfold Ids.steps_to, Ids.step, Ids.incoming_id.
  destruct (at_node c) eqn:Hn.
  - destruct (CodeAct.call_model _ _ _ _ _) as [cmd|e] eqn:Hcm;
      [|intros [H|H]; discriminate].
    destruct (call_model_returns_one _ _ _ Hcm) as (text & Hmsgs).
    unfold advance. intros H.
    exists {| CodeAct.role := CodeAct.assistant; CodeAct.content := text |}.
    destruct (CodeAct.next_node _ _); destruct H as [H|H];
      try discriminate; injection H as <-;
      unfold write; simpl; rewrite Hmsgs;
      (split; [reflexivity | unfold executions; simpl; lia]).
  - destruct (CodeAct.sandbox _ _ _) as [u|e] eqn:Hsb;
      [|intros [H|H]; discriminate].
    apply sandbox_inv in Hsb as (s & output & _ & _ & ->).
    unfold advance. intros H.
    exists {| CodeAct.role := CodeAct.user; CodeAct.content := output |}.
    destruct (CodeAct.next_node _ _); destruct H as [H|H];
      try discriminate; injection H as <-;
      unfold write; simpl;
      (split; [reflexivity | unfold executions; simpl; lia]).
Qed.

(** What the reducer does with the message of a step. *)
Lemma step_appends_or_replaces (c c' : Config) :
  steps_to c c' ->
  exists m,
    let new := {| msg_id := incoming_id c; stored := m |} in
    executions c' = S (executions c)
    /\ (fresh c = true -> history c' = (history c ++ [new])%list)
    /\ (fresh c = false ->
        exists i old,
          history c !! i = Some old
          /\ msg_id old = incoming_id c
          /\ history c' = <[i := new]> (history c)).
Proof.
  intros Hst. destruct (id_step_inv c c' Hst) as (m & Hh & He).
  exists m. simpl. split; [exact He|].
  unfold Ids.fresh, merge_one in *. simpl in Hh.
  destruct (index_by_id (incoming_id c) (history c)) as [i|] eqn:Hi.
  - split; [discriminate|]. intros _.
    destruct (index_by_id_some _ _ _ Hi) as (old & Hold & Hid).
    exists i, old. auto.
  - split; [intros _; exact Hh | discriminate].
Qed.

Lemma write_history_fresh (c : Config) (given : option string)
    (u : CodeAct.Update) (n : CodeAct.Node) (mc sc : nat)
    (m : CodeAct.Message) :
  CodeAct.upd_messages u = [m] ->
  index_by_id (default (uuid4 (executions c) 0) given) (history c) = None ->
  history (write uuid4 c given u n mc sc)
  = (history c
       ++ [{| msg_id := default (uuid4 (executions c) 0) given;
              stored := m |}])%list.
Proof.
  intros Hu Hi. unfold write, add_messages, merge_one, assign_id.
  rewrite Hu. cbn [history imap fold_left msg_id given_id returned].
  rewrite Hi. reflexivity.
Qed.

Lemma project_write_fresh (c : Config) (given : option string)
    (u : CodeAct.Update) (n : CodeAct.Node) (mc sc : nat)
    (m : CodeAct.Message) :
  CodeAct.upd_messages u = [m] ->
  index_by_id (default (uuid4 (executions c) 0) given) (history c) = None ->
  project (write uuid4 c given u n mc sc)
  = {| CodeAct.at_node := n;
       CodeAct.state := CodeAct.apply_update (view c) u;
       CodeAct.model_calls := mc;
       CodeAct.sandbox_calls := sc |}.
Proof.
  intros Hu Hi. unfold project, view, CodeAct.apply_update,
    CodeAct.add_messages.
  rewrite (write_history_fresh c given u n mc sc m Hu Hi), map_app, Hu.
  reflexivity.
Qed.

(** A step that stores its message under a new id is a step of the
    model that appends: the two agree on the view of the state. *)
Lemma fresh_step_projects (c : Config) :
  fresh c = true ->
  match step c with
  | Next c' =>
      CodeAct.step extract_and_combine_codeblocks model eval_fn prompt_arg
        (project c) = CodeAct.Next (project c')
  | Done c' =>
      CodeAct.step extract_and_combine_codeblocks model eval_fn prompt_arg
        (project c) = CodeAct.Done (project c')
  | Failed e c' =>
      CodeAct.step extract_and_combine_codeblocks model eval_fn prompt_arg
        (project c) = CodeAct.Failed e (project c')
  end.
Proof.
  unfold Ids.fresh, Ids.incoming_id, Ids.step, CodeAct.step.
  cbn [project CodeAct.at_node CodeAct.state CodeAct.model_calls
       CodeAct.sandbox_calls].
  destruct (at_node c) eqn:Hn.
  - destruct (index_by_id _ _) eqn:Hi; [discriminate|]. intros _.
    destruct (CodeAct.call_model _ _ _ _ _) as [cmd|e] eqn:Hcm; [|reflexivity].
    destruct (call_model_returns_one _ _ _ Hcm) as (text & Hmsgs).
    unfold advance, CodeAct.advance.
    destruct (CodeAct.next_node _ _);
      rewrite (project_write_fresh c _ _ _ _ _ _ Hmsgs Hi); reflexivity.
  - destruct (index_by_id _ _) eqn:Hi; [discriminate|]. intros _.
    destruct (CodeAct.sandbox _ _ _) as [u|e] eqn:Hsb; [|reflexivity].
    apply sandbox_inv in Hsb as (s & output & _ & _ & ->).
    unfold advance, CodeAct.advance.
    destruct (CodeAct.next_node _ _);
      rewrite (project_write_fresh c None
                 {| CodeAct.upd_messages :=
                      [{| CodeAct.role := CodeAct.user;
                          CodeAct.content := output |}];
                    CodeAct.upd_script := None;
                    CodeAct.upd_context := None |}
                 _ _ _ _ eq_refl Hi);
      reflexivity.
Qed.

(** C5, amended. Along a run in which every step stores its message
    under an id new to the history (the id the response carries, or a
    fresh uuid for a message that carries none), the history only grows
    at its end: it is the initial history, in place and unchanged,
    followed by one message per model or evaluator call made since, and
    the sequence sent to the model is the system prompt followed by it,
    so its length is 1 plus the number of messages in the state.  A
    further step appends its message when the id is new again, and
    otherwise puts it in the place of the stored message that has the
    id, which changes neither the length nor the order. *)
Theorem history_accumulates (init c : Config) :
  fresh_run init c ->
  (exists appended,
      history c = (history init ++ appended)%list
      /\ length appended + executions init = executions c
      /\ CodeAct.model_input prompt_arg (view c)
         = {| CodeAct.role := CodeAct.system;
              CodeAct.content := CodeAct.prompt prompt_arg |}
             :: map stored (history init ++ appended)
      /\ length (CodeAct.model_input prompt_arg (view c))
         = 1 + length (history init) + length appended)
  /\ forall c',
      steps_to c c' ->
      exists m,
        let new := {| msg_id := incoming_id c; stored := m |} in
        (fresh c = true -> history c' = (history c ++ [new])%list)
        /\ (fresh c = false ->
            exists i old,
              history c !! i = Some old
              /\ msg_id old = incoming_id c
              /\ history c' = <[i := new]> (history c)
              /\ length (history c') = length (history c)).
Proof.
  intros Hr. split.
  - induction Hr as [|c c' _ (appended & Hh & Hn & _) Hf Hs].
    + exists []. rewrite app_nil_r. split; [reflexivity|].
      split; [reflexivity|]. split; [reflexivity|].
      unfold CodeAct.model_input. simpl. rewrite length_map. lia.
    + destruct (step_appends_or_replaces c c' (or_introl Hs))
        as (m & He & Hfresh & _).
      specialize (Hfresh Hf). simpl in Hfresh.
      exists (appended ++ [{| msg_id := incoming_id c; stored := m |}])%list.
      assert (Hh' : history c'
                    = (history init ++ appended
                         ++ [{| msg_id := incoming_id c; stored := m |}])%list)
        by (rewrite Hfresh, Hh, <- app_assoc; reflexivity).
      split; [exact Hh'|]. split; [rewrite length_app; simpl; lia|].
      unfold CodeAct.model_input, view. simpl. rewrite Hh'.
      split; [reflexivity|]. rewrite length_map, !length_app. simpl. lia.
  - intros c' Hst.
    destruct (step_appends_or_replaces c c' Hst) as (m & _ & Hfresh & Hold).
    exists m. simpl. split; [exact Hfresh|]. intros Hnf.
    destruct (Hold Hnf) as (i & old & Hi & Hid & Hh).
    exists i, old. repeat split; try assumption.
    rewrite Hh. apply length_insert.
Qed.

End History.

(** C5 as stated fails: a response that carries the id of a message of
    the history is stored in the place of that message.  After the step
    the user's message is gone, the history holds one message and not
    two, and the model input two and not three. *)
Lemma messages_accumulate_counterexample :
  Ids.step Utils.extract_and_combine_codeblocks IdCases.model_answer
    IdCases.response_same_id IdCases.uuid4 Scenario.eval_ok None
    IdCases.asked
  = Ids.Done IdCases.overwritten
  /\ length (CodeAct.model_input None (Ids.view IdCases.overwritten)) = 2
  /\ ~ exists appended,
        Ids.history IdCases.overwritten
        = (Ids.history IdCases.asked ++ appended)%list.
Proof.
  split; [reflexivity|]. split; [reflexivity|].
  intros (appended & H). simpl in H. discriminate.
Qed.

Lemma history_accumulates_witness :
  Ids.fresh IdCases.response_new_id IdCases.uuid4 None IdCases.asked = true
  /\ Ids.step Utils.extract_and_combine_codeblocks Scenario.model
       IdCases.response_new_id IdCases.uuid4 Scenario.eval_ok None
       IdCases.asked
     = Ids.Next IdCases.answered_with_code
  /\ exists appended,
      Ids.history IdCases.answered_with_code
      = (Ids.history IdCases.asked ++ appended)%list
      /\ length appended + Ids.executions IdCases.asked
         = Ids.executions IdCases.answered_with_code
      /\ CodeAct.model_input None (Ids.view IdCases.answered_with_code)
         = {| CodeAct.role := CodeAct.system;
              CodeAct.content := CodeAct.prompt None |}
             :: map Ids.stored (Ids.history IdCases.asked ++ appended)
      /\ length (CodeAct.model_input None (Ids.view IdCases.answered_with_code))
         = 1 + length (Ids.history IdCases.asked) + length appended.
Proof.
  split; [reflexivity|]. split; [reflexivity|].
  exact (proj1 (history_accumulates Utils.extract_and_combine_codeblocks
                  Scenario.model IdCases.response_new_id IdCases.uuid4
                  Scenario.eval_ok None IdCases.asked
                  IdCases.answered_with_code
                  (Ids.fresh_run_step Utils.extract_and_combine_codeblocks
                     Scenario.model IdCases.response_new_id IdCases.uuid4
                     Scenario.eval_ok None IdCases.asked
                     IdCases.asked IdCases.answered_with_code
                     (Ids.fresh_run_init Utils.extract_and_combine_codeblocks
                        Scenario.model IdCases.response_new_id IdCases.uuid4
                        Scenario.eval_ok None IdCases.asked)
                     eq_refl eq_refl))).
Defined.

(** ** The encoding of the code points *)

Section CodePoints.

Import PyJson.

Local Open Scope N_scope.

(** A check that holds for the first [k] numbers holds below [k]. *)
Lemma checked_below (f : N -> bool) (k : nat) :
  forallb f (map N.of_nat (seq 0 k)) = true ->
  forall d, d < N.of_nat k -> f d = true.
Proof.
  intros Hall d Hd. rewrite forallb_forall in Hall. apply Hall.
  apply in_map_iff. exists (N.to_nat d). split; [apply N2Nat.id|].
  apply in_seq. lia.
Qed.

Lemma hex_digit_value (d : N) :
  d < 16 -> Json.hex_value (Json.hex_digit d) = Some d.
Proof.
  intros Hd.
  pose proof (checked_below
    (fun d => match Json.hex_value (Json.hex_digit d) with
              | Some x => x =? d
              | None => false
              end) 16 eq_refl d Hd) as H.
  simpl in H. destruct (Json.hex_value (Json.hex_digit d)); [|discriminate].
  apply N.eqb_eq in H. congruence.
Qed.

Lemma hex4_value_hex4 (n : N) (r : string) :
  n < 0x10000 ->
  exists a b c d,
    hex4 n ++ r = String a (String b (String c (String d r)))
    /\ hex4_value a b c d = Some n.
Proof.
  intros Hn. unfold hex4. do 4 eexists. split; [reflexivity|].
  unfold hex4_value.
  assert (H3 : n / 4096 < 16) by (apply N.Div0.div_lt_upper_bound; lia).
  assert (H2 : n / 256 mod 16 < 16) by (apply N.mod_lt; lia).
  assert (H1 : n / 16 mod 16 < 16) by (apply N.mod_lt; lia).
  assert (H0 : n mod 16 < 16) by (apply N.mod_lt; lia).
  rewrite (hex_digit_value _ H3), (hex_digit_value _ H2),
    (hex_digit_value _ H1), (hex_digit_value _ H0).
  f_equal. clear H3 H2 H1 H0.
  zify. Z.to_euclidean_division_equations. lia.
Qed.

Lemma unescape_plain (c : ascii) (r : string) :
  Ascii.eqb c Json.dquote = false ->
  Ascii.eqb c Json.backslash = false ->
  unescape (String c r) = N_of_ascii c :: unescape r.
Proof. intros H1 H2. simpl. rewrite H1, H2. reflexivity. Qed.

Lemma unescape_u (a b c d : ascii) (r : string) (v : N) :
  hex4_value a b c d = Some v ->
  is_high v = false ->
  unescape (String Json.backslash (String "u" (String a (String b
              (String c (String d r))))))
  = v :: unescape r.
Proof.
  intros Hv Hh.
  change (unescape (String Json.backslash (String "u" (String a (String b
                      (String c (String d r)))))))
    with (match hex4_value a b c d with
          | Some v =>
              if is_high v then
                match r with
                | String _ (String _ (String l3 (String l2
                    (String l1 (String l0 r3))))) =>
                    match hex4_value l3 l2 l1 l0 with
                    | Some w => combine v w :: unescape r3
                    | None => []
                    end
                | _ => []
                end
              else v :: unescape r
          | None => []
          end).
  rewrite Hv, Hh. reflexivity.
Qed.

Lemma unescape_pair (a b c d x y e f g h : ascii) (r : string) (v w : N) :
  hex4_value a b c d = Some v ->
  is_high v = true ->
  hex4_value e f g h = Some w ->
  unescape (String Json.backslash (String "u" (String a (String b
              (String c (String d (String x (String y (String e (String f
                 (String g (String h r))))))))))))
  = combine v w :: unescape r.
Proof.
  intros Hv Hh Hw.
  change (unescape (String Json.backslash (String "u" (String a (String b
              (String c (String d (String x (String y (String e (String f
                 (String g (String h r)))))))))))))
    with (match hex4_value a b c d with
          | Some v =>
              if is_high v then
                match hex4_value e f g h with
                | Some w => combine v w :: unescape r
                | None => []
                end
              else v :: unescape (String x (String y (String e (String f
                                    (String g (String h r))))))
          | None => []
          end).
  rewrite Hv, Hh, Hw. reflexivity.
Qed.

(** The surrogates are the marker plus ten bits of the code point. *)
Lemma lor_high (y : N) : y < 1024 -> N.lor 0xd800 y = 0xd800 + y.
Proof.
  intros Hy. apply N.eqb_eq.
  exact (checked_below (fun y => N.lor 0xd800 y =? 0xd800 + y) 1024
           ltac:(vm_compute; reflexivity) y Hy).
Qed.

Lemma lor_low (y : N) : y < 1024 -> N.lor 0xdc00 y = 0xdc00 + y.
Proof.
  intros Hy. apply N.eqb_eq.
  exact (checked_below (fun y => N.lor 0xdc00 y =? 0xdc00 + y) 1024
           ltac:(vm_compute; reflexivity) y Hy).
Qed.

Lemma land_ten_bits (x : N) : N.land x 0x3ff = x mod 1024.
Proof. exact (N.land_ones x 10). Qed.

(** The escape of a scalar value is read back as that value. *)
Lemma unescape_escape_code_point (n : N) (r : string) :
  is_scalar n = true ->
  unescape (escape_code_point n ++ r) = n :: unescape r.
Proof.
  unfold is_scalar, escape_code_point. intros Hs.
  apply andb_true_iff in Hs as [Hmax Hsur]. apply N.ltb_lt in Hmax.
  apply negb_true_iff in Hsur.
  destruct (N.eqb_spec n 34) as [->|H34]; [reflexivity|].
  destruct (N.eqb_spec n 92) as [->|H92]; [reflexivity|].
  destruct (N.eqb_spec n 10) as [->|H10]; [reflexivity|].
  destruct (N.eqb_spec n 13) as [->|H13]; [reflexivity|].
  destruct (N.eqb_spec n 9) as [->|H9]; [reflexivity|].
  destruct (N.eqb_spec n 8) as [->|H8]; [reflexivity|].
  destruct (N.eqb_spec n 12) as [->|H12]; [reflexivity|].
  destruct ((32 <=? n) && (n <=? 126)) eqn:Hp.
  - apply andb_true_iff in Hp as [Hlo Hhi].
    apply N.leb_le in Hlo, Hhi. push_append.
    assert (Hn : N_of_ascii (ascii_of_N n) = n)
      by (apply N_ascii_embedding; lia).
    rewrite unescape_plain, Hn; [reflexivity| |].
    + apply Ascii.eqb_neq. intros He. apply (f_equal N_of_ascii) in He.
      rewrite Hn in He. apply H34. exact He.
    + apply Ascii.eqb_neq. intros He. apply (f_equal N_of_ascii) in He.
      rewrite Hn in He. apply H92. exact He.
  - destruct (N.ltb_spec n 0x10000) as [Hb|Hb].
    + unfold u_escape. push_append.
      destruct (hex4_value_hex4 n r Hb) as (a & b & c & d & -> & Hv).
      apply (unescape_u a b c d r n Hv).
      unfold is_high.
      destruct (0xD800 <=? n) eqn:H1; [|reflexivity].
      destruct (n <=? 0xDFFF) eqn:H2; [discriminate|].
      apply N.leb_gt in H2. simpl. apply N.leb_gt. lia.
    + remember (n - 0x10000) as v eqn:Ev.
      assert (Hv : v < 0x100000) by lia.
      rewrite N.shiftr_div_pow2, !land_ten_bits.
      change (2 ^ 10) with 1024.
      assert (Hq : v / 1024 < 1024) by (apply N.Div0.div_lt_upper_bound; lia).
      rewrite (N.mod_small (v / 1024) 1024) by exact Hq.
      assert (Hm : v mod 1024 < 1024) by (apply N.mod_lt; lia).
      rewrite (lor_high _ Hq), (lor_low _ Hm).
      pose proof (N.div_mod v 1024 ltac:(lia)) as Hdm.
      remember (v / 1024) as q eqn:Eq. remember (v mod 1024) as m eqn:Em.
      unfold u_escape. rewrite string_app_assoc. push_append.
      destruct (hex4_value_hex4 (0xd800 + q)
                  (String Json.backslash (String "u" (hex4 (0xdc00 + m) ++ r)))
                  ltac:(lia)) as (a & b & c & d & -> & Hhi).
      destruct (hex4_value_hex4 (0xdc00 + m) r ltac:(lia))
        as (e & f & g & h & -> & Hlo).
      assert (Hh : is_high (0xd800 + q) = true)
        by (unfold is_high; apply andb_true_iff; split; apply N.leb_le; lia).
      rewrite (unescape_pair a b c d _ _ e f g h r _ _ Hhi Hh Hlo).
      f_equal. unfold combine. lia.
Qed.

Lemma unescape_escape (s : list N) (rest : string) :
  forallb is_scalar s = true ->
  unescape (escape s ++ String Json.dquote rest) = s.
Proof.
  induction s as [|n s IH]; simpl; [reflexivity|].
  intros [Hn Hs]%andb_true_iff.
  rewrite string_app_assoc, (unescape_escape_code_point n _ Hn), (IH Hs).
  reflexivity.
Qed.

Lemma py_dumps_event_shape (content : list N) :
  dumps_event content
  = ("{" ++ Json.encode_string "type" ++ ": " ++ Json.encode_string "event"
     ++ ", " ++ Json.encode_string "content" ++ ": "
     ++ String Json.dquote EmptyString)
    ++ escape content ++ String Json.dquote "}".
Proof.
  unfold dumps_event, encode_string.
  rewrite !string_app_assoc. push_append.
  rewrite !string_app_assoc. reflexivity.
Qed.

(** On characters below 256 the encoding is the one of [Json]. *)
Lemma escape_of_string (s : string) : escape (of_string s) = Json.escape s.
Proof.
  induction s as [|c s IH]; simpl; [reflexivity|]. rewrite IH. f_equal.
  destruct c as [[] [] [] [] [] [] [] []]; reflexivity.
Qed.

Lemma event_frame_of_string (s : string) :
  event_frame (of_string s) = SseStream.event_frame Json.dumps_event s.
Proof.
  unfold event_frame, SseStream.event_frame, dumps_event, Json.dumps_event,
    encode_string, Json.encode_string at 4.
  rewrite escape_of_string. reflexivity.
Qed.

(** X15. The encoding loses nothing on contents made of scalar values:
    two such contents with the same event frame are the same content.
    (A surrogate pair written as two code points has the frame of the
    code point it stands for, which is why surrogates are left out.) *)
Theorem event_frame_injective (c1 c2 : list N) :
  forallb is_scalar c1 = true ->
  forallb is_scalar c2 = true ->
  event_frame c1 = event_frame c2 ->
  c1 = c2.
Proof.
  unfold event_frame. intros H1 H2 H.
  rewrite !py_dumps_event_shape, !string_app_assoc in H.
  repeat apply string_app_inv_head in H.
  rewrite !append_cons in H. apply (f_equal unescape) in H.
  rewrite (unescape_escape c1 _ H1), (unescape_escape c2 _ H2) in H.
  exact H.
Qed.

Example surrogate_pair_has_the_frame_of_its_code_point :
  event_frame [0xD83D; 0xDE00] = event_frame [0x1F600].
Proof. reflexivity. Qed.

Lemma event_frame_injective_witness :
  forallb is_scalar [0x1F600; 0x4e2d; 10] = true
  /\ event_frame [0x1F600; 0x4e2d; 10] = event_frame [128512; 20013; 10]
  /\ [0x1F600; 0x4e2d; 10] = [128512; 20013; 10].
Proof.
  split; [reflexivity|]. split; [reflexivity|].
  exact (event_frame_injective [0x1F600; 0x4e2d; 10] [128512; 20013; 10]
           eq_refl eq_refl eq_refl).
Defined.

End CodePoints.
